(** * Floating orbs: the canvas animation of docs/src/pages/index.tsx

    A shallow embedding of the [FloatingOrbs] effect (lines 22-117 of
    index.tsx): the orb record, [createOrb], [updateOrb], [drawOrb],
    [setCanvasSize], [animate], the effect body and its cleanup, together
    with the part of the browser the effect talks to (the window's resize
    listeners, the animation-frame queue, the canvas and its 2D context).

    JavaScript numbers are read as real numbers: no rounding, no NaN, no
    infinities.  [Math.sin] is [sin], [Math.PI] is [PI], and [Math.random]
    is a sequence of reals handed out one call at a time. *)

From Stdlib Require Import Reals Lra List String Ascii Bool Arith Lia QArith.
Import ListNotations.

Open Scope R_scope.

(** ** The orb record (index.tsx, lines 10-20) *)

Record Orb : Type := mkOrb {
  x : R;
  y : R;
  baseRadius : R;
  radius : R;
  color : string;
  vx : R;
  vy : R;
  phase : R;
  pulseSpeed : R
}.

(** Field assignments [orb.f = v]. *)

Definition set_x (orb : Orb) (v : R) : Orb :=
  mkOrb v (y orb) (baseRadius orb) (radius orb) (color orb)
        (vx orb) (vy orb) (phase orb) (pulseSpeed orb).

Definition set_y (orb : Orb) (v : R) : Orb :=
  mkOrb (x orb) v (baseRadius orb) (radius orb) (color orb)
        (vx orb) (vy orb) (phase orb) (pulseSpeed orb).

Definition set_radius (orb : Orb) (v : R) : Orb :=
  mkOrb (x orb) (y orb) (baseRadius orb) v (color orb)
        (vx orb) (vy orb) (phase orb) (pulseSpeed orb).

Definition set_phase (orb : Orb) (v : R) : Orb :=
  mkOrb (x orb) (y orb) (baseRadius orb) (radius orb) (color orb)
        (vx orb) (vy orb) v (pulseSpeed orb).

(** ** [Math.random] and [createOrb] (lines 42-61)

    [Math.random] is a sequence [rnd] of reals and a counter of the calls
    made so far; a computation that draws from it is a function of both. *)

Definition Random (A : Type) : Type := (nat -> R) -> nat -> A * nat.

Definition ret {A : Type} (a : A) : Random A := fun _ i => (a, i).

Definition bind {A B : Type} (m : Random A) (k : A -> Random B) : Random B :=
  fun rnd i => let (a, j) := m rnd i in k a rnd j.

Definition random : Random R := fun rnd i => (rnd i, S i).

Notation "v <- m ;; k" := (bind m (fun v => k))
  (at level 61, m at next level, right associativity).

(** The properties of the object literal are evaluated in the order they are
    written: x, y, vx, vy, phase, pulseSpeed. *)
Definition createOrb (offsetWidth offsetHeight : R)
    (color : string) (baseRadius : R) : Random Orb :=
  r1 <- random ;;
  r2 <- random ;;
  r3 <- random ;;
  r4 <- random ;;
  r5 <- random ;;
  r6 <- random ;;
  ret {| x := r1 * offsetWidth;
         y := r2 * offsetHeight;
         baseRadius := baseRadius;
         radius := baseRadius;
         color := color;
         vx := (r3 - 0.5) * 0.4;
         vy := (r4 - 0.5) * 0.4;
         phase := r5 * PI * 2;
         pulseSpeed := 0.006 + r6 * 0.006 |}.

(** The arguments of the six [createOrb] calls of lines 55-60. *)
Definition palette : list (string * R) :=
  [ ("rgba(139, 92, 246, 0.18)"%string, 280);
    ("rgba(192, 132, 252, 0.14)"%string, 220);
    ("rgba(236, 72, 153, 0.12)"%string, 200);
    ("rgba(212, 175, 55, 0.08)"%string, 180);
    ("rgba(99, 102, 241, 0.12)"%string, 240);
    ("rgba(244, 114, 182, 0.10)"%string, 160) ].

(** The array literal of lines 54-61: its elements are evaluated left to
    right. *)
Fixpoint createOrbs (offsetWidth offsetHeight : R)
    (entries : list (string * R)) : Random (list Orb) :=
  match entries with
  | [] => ret []
  | (c, b) :: rest =>
      o <- createOrb offsetWidth offsetHeight c b ;;
      os <- createOrbs offsetWidth offsetHeight rest ;;
      ret (o :: os)
  end.

(** ** [updateOrb] (lines 63-75)

    One [let] per statement of the source.  [moveOrb] is lines 64-67 (drift,
    phase advance, pulse) and [wrapOrb] is lines 71-74 (the four wraparound
    tests, each on the orb the previous one left); [width] and [height] are
    the values read from [canvas.offsetWidth] and [canvas.offsetHeight] on
    lines 69-70. *)

Definition moveOrb (orb : Orb) : Orb :=
  let orb := set_x orb (x orb + vx orb) in
  let orb := set_y orb (y orb + vy orb) in
  let orb := set_phase orb (phase orb + pulseSpeed orb) in
  let orb := set_radius orb (baseRadius orb + sin (phase orb) * 30) in
  orb.

(** Lines 71-74, one definition per [if] statement. *)
Definition wrapLeft (width : R) (orb : Orb) : Orb :=
  if Rlt_dec (x orb) (- radius orb)
  then set_x orb (width + radius orb) else orb.

Definition wrapRight (width : R) (orb : Orb) : Orb :=
  if Rgt_dec (x orb) (width + radius orb)
  then set_x orb (- radius orb) else orb.

Definition wrapTop (height : R) (orb : Orb) : Orb :=
  if Rlt_dec (y orb) (- radius orb)
  then set_y orb (height + radius orb) else orb.

Definition wrapBottom (height : R) (orb : Orb) : Orb :=
  if Rgt_dec (y orb) (height + radius orb)
  then set_y orb (- radius orb) else orb.

Definition wrapOrb (width height : R) (orb : Orb) : Orb :=
  let orb := wrapLeft width orb in
  let orb := wrapRight width orb in
  let orb := wrapTop height orb in
  let orb := wrapBottom height orb in
  orb.

Definition updateOrb (width height : R) (orb : Orb) : Orb :=
  wrapOrb width height (moveOrb orb).

(** What two consecutive tests do to the coordinate they guard; [wrapOrb]
    is shown below to apply it to [x] and to [y]. *)
Definition wrapAxis (extent r c : R) : R :=
  let c1 := if Rlt_dec c (- r) then extent + r else c in
  if Rgt_dec c1 (extent + r) then - r else c1.

(** ** The regular expression of line 88

    [s.replace(/[\d.]+\)$/, "0.05)")] replaces the leftmost match, if there
    is one.  A match starting at a given position is one or more characters
    of the class [[\d.]], then a closing parenthesis, then the end of the
    string; the class and the parenthesis are disjoint, so the greedy [+]
    never has to give characters back. *)

Definition isDigitOrDot (c : ascii) : bool :=
  let n := nat_of_ascii c in
  ((48 <=? n)%nat && (n <=? 57)%nat) || (n =? 46)%nat.

Definition isCloseParen (c : ascii) : bool := (nat_of_ascii c =? 41)%nat.

(** [matchesTail seen s]: [s] is [[\d.]*\)$], with at least one class
    character consumed when [seen] is false. *)
Fixpoint matchesTail (seen : bool) (s : string) : bool :=
  match s with
  | EmptyString => false
  | String c rest =>
      if isDigitOrDot c then matchesTail true rest
      else if isCloseParen c then
        seen && match rest with EmptyString => true | _ => false end
      else false
  end.

Definition matchesHere (s : string) : bool := matchesTail false s.

Fixpoint replaceAlpha (s : string) : string :=
  if matchesHere s then "0.05)"%string
  else match s with
       | EmptyString => EmptyString
       | String c rest => String c (replaceAlpha rest)
       end.

(** ** The canvas context and [drawOrb] (lines 77-95) *)

Record Gradient : Type := mkGradient {
  gx0 : R; gy0 : R; gr0 : R;
  gx1 : R; gy1 : R; gr1 : R;
  stops : list (R * string)
}.

Definition createRadialGradient (x0 y0 r0 x1 y1 r1 : R) : Gradient :=
  mkGradient x0 y0 r0 x1 y1 r1 [].

Definition addColorStop (g : Gradient) (offset : R) (c : string) : Gradient :=
  mkGradient (gx0 g) (gy0 g) (gr0 g) (gx1 g) (gy1 g) (gr1 g)
             (stops g ++ [(offset, c)]).

(** The log of drawing operations on the 2D context, in the order the
    source performs them.  [SetFillStyle] is the assignment to
    [ctx.fillStyle]; [ctx.createRadialGradient] and the three
    [addColorStop] calls are not entries of their own: they build the
    gradient that the assignment carries. *)
Inductive Call : Type :=
| Scale (sx sy : R)
| ClearRect (cx cy cw ch : R)
| BeginPath
| Arc (cx cy r startAngle endAngle : R)
| SetFillStyle (g : Gradient)
| Fill.

Definition gradientOf (orb : Orb) : Gradient :=
  let gradient :=
    createRadialGradient (x orb) (y orb) 0 (x orb) (y orb) (radius orb) in
  let gradient := addColorStop gradient 0 (color orb) in
  let gradient := addColorStop gradient 0.5 (replaceAlpha (color orb)) in
  let gradient := addColorStop gradient 1 "transparent" in
  gradient.

(** [drawOrb] on a context that exists (the guard of line 78 is in
    [drawOrbW] below): the gradient of lines 79-89, then lines 91-94. *)
Definition drawOrb (orb : Orb) : list Call :=
  let gradient := gradientOf orb in
  [ BeginPath;
    Arc (x orb) (y orb) (radius orb) 0 (PI * 2);
    SetFillStyle gradient;
    Fill ].

(** ** The browser as the effect sees it

    [canvasRef] and [context2d] say whether [canvasRef.current] and
    [canvas.getContext("2d")] are non-null.  [offsetWidth], [offsetHeight]
    and [devicePixelRatio] belong to the page layout and change only when
    the host resizes; [canvasWidth] and [canvasHeight] are the canvas
    attributes written by [setCanvasSize].  [orbs] is the array of line 54,
    [cleanup] records that the effect returned its cleanup function, and
    [calls] is the log of the calls made on the 2D context. *)

Inductive Listener : Type :=
| SetCanvasSize
| OtherListener (id : nat).

Inductive FrameCallback : Type :=
| Animate.

Record World : Type := mkWorld {
  canvasRef : bool;
  context2d : bool;
  offsetWidth : R;
  offsetHeight : R;
  devicePixelRatio : option R;
  canvasWidth : R;
  canvasHeight : R;
  resizeListeners : list Listener;
  frameRequests : list FrameCallback;
  orbs : list Orb;
  cleanup : bool;
  calls : list Call
}.

Definition set_layout (w : World) (ow oh : R) (dpr : option R) : World :=
  mkWorld (canvasRef w) (context2d w) ow oh dpr
          (canvasWidth w) (canvasHeight w) (resizeListeners w)
          (frameRequests w) (orbs w) (cleanup w) (calls w).

Definition set_canvasWidth (w : World) (v : R) : World :=
  mkWorld (canvasRef w) (context2d w) (offsetWidth w) (offsetHeight w)
          (devicePixelRatio w) v (canvasHeight w) (resizeListeners w)
          (frameRequests w) (orbs w) (cleanup w) (calls w).

Definition set_canvasHeight (w : World) (v : R) : World :=
  mkWorld (canvasRef w) (context2d w) (offsetWidth w) (offsetHeight w)
          (devicePixelRatio w) (canvasWidth w) v (resizeListeners w)
          (frameRequests w) (orbs w) (cleanup w) (calls w).

Definition set_resizeListeners (w : World) (v : list Listener) : World :=
  mkWorld (canvasRef w) (context2d w) (offsetWidth w) (offsetHeight w)
          (devicePixelRatio w) (canvasWidth w) (canvasHeight w) v
          (frameRequests w) (orbs w) (cleanup w) (calls w).

Definition set_frameRequests (w : World) (v : list FrameCallback) : World :=
  mkWorld (canvasRef w) (context2d w) (offsetWidth w) (offsetHeight w)
          (devicePixelRatio w) (canvasWidth w) (canvasHeight w)
          (resizeListeners w) v (orbs w) (cleanup w) (calls w).

Definition set_orbs (w : World) (v : list Orb) : World :=
  mkWorld (canvasRef w) (context2d w) (offsetWidth w) (offsetHeight w)
          (devicePixelRatio w) (canvasWidth w) (canvasHeight w)
          (resizeListeners w) (frameRequests w) v (cleanup w) (calls w).

Definition set_cleanup (w : World) (v : bool) : World :=
  mkWorld (canvasRef w) (context2d w) (offsetWidth w) (offsetHeight w)
          (devicePixelRatio w) (canvasWidth w) (canvasHeight w)
          (resizeListeners w) (frameRequests w) (orbs w) v (calls w).

Definition set_calls (w : World) (v : list Call) : World :=
  mkWorld (canvasRef w) (context2d w) (offsetWidth w) (offsetHeight w)
          (devicePixelRatio w) (canvasWidth w) (canvasHeight w)
          (resizeListeners w) (frameRequests w) (orbs w) (cleanup w) v.

(** A call on the context is appended to the log. *)
Definition ctxCall (c : Call) (w : World) : World :=
  set_calls w (calls w ++ [c]).

Definition ctxCalls (cs : list Call) (w : World) : World :=
  set_calls w (calls w ++ cs).

Definition listener_eqb (a b : Listener) : bool :=
  match a, b with
  | SetCanvasSize, SetCanvasSize => true
  | OtherListener i, OtherListener j => Nat.eqb i j
  | _, _ => false
  end.

(** [window.addEventListener("resize", l)]: a listener already registered
    is not registered again. *)
Definition addEventListener (l : Listener) (w : World) : World :=
  if existsb (listener_eqb l) (resizeListeners w) then w
  else set_resizeListeners w (resizeListeners w ++ [l]).

(** [window.removeEventListener("resize", l)]: nothing happens when [l] is
    not registered. *)
Definition removeEventListener (l : Listener) (w : World) : World :=
  set_resizeListeners w
    (filter (fun l' => negb (listener_eqb l l')) (resizeListeners w)).

(** [requestAnimationFrame(cb)]; the handle it returns is dropped by the
    source (line 106). *)
Definition requestAnimationFrame (cb : FrameCallback) (w : World) : World :=
  set_frameRequests w (frameRequests w ++ [cb]).

(** ** [setCanvasSize] (lines 32-37)

    [window.devicePixelRatio || 1]: an undefined or zero ratio gives 1. *)
Definition pixelRatio (w : World) : R :=
  match devicePixelRatio w with
  | Some d => if Req_dec_T d 0 then 1 else d
  | None => 1
  end.

(** Assigning a number to [canvas.width] or [canvas.height].  The
    attributes are unsigned long: the number loses its fraction (towards
    zero) and is taken modulo 2^32, and a result above 2147483647 is
    replaced by the attribute's default, 300 for the width and 150 for the
    height. *)
Definition integerPart (v : R) : Z :=
  if Rle_dec 0 v then Int_part v else (- Int_part (- v))%Z.

Definition toUnsignedLong (v : R) : Z := (integerPart v mod 2 ^ 32)%Z.

Definition canvasAttribute (default : Z) (v : R) : R :=
  let u := toUnsignedLong v in
  IZR (if (u <=? 2147483647)%Z then u else default).

Definition setCanvasSize (w : World) : World :=
  let dpr := pixelRatio w in
  let w := set_canvasWidth w (canvasAttribute 300 (offsetWidth w * dpr)) in
  let w := set_canvasHeight w (canvasAttribute 150 (offsetHeight w * dpr)) in
  ctxCall (Scale dpr dpr) w.

(** ** [drawOrb] with its guard, and the [forEach] of lines 101-104

    The array holds the orb objects themselves: [updateOrb(orb)] writes to
    the object at index [i], and [drawOrb(orb)] then reads that object. *)

Definition drawOrbW (orb : Orb) (w : World) : World :=
  if negb (context2d w) then w else ctxCalls (drawOrb orb) w.

Fixpoint set_nth {A : Type} (i : nat) (v : A) (l : list A) : list A :=
  match l, i with
  | [], _ => []
  | _ :: t, O => v :: t
  | h :: t, S j => h :: set_nth j v t
  end.

Definition visitOrb (i : nat) (w : World) : World :=
  match nth_error (orbs w) i with
  | None => w
  | Some orb =>
      let w :=
        set_orbs w
          (set_nth i (updateOrb (offsetWidth w) (offsetHeight w) orb)
                   (orbs w)) in
      match nth_error (orbs w) i with
      | None => w
      | Some orb => drawOrbW orb w
      end
  end.

Fixpoint forEachFrom (n i : nat) (w : World) : World :=
  match n with
  | O => w
  | S n' => forEachFrom n' (S i) (visitOrb i w)
  end.

Definition forEachOrb (w : World) : World :=
  forEachFrom (List.length (orbs w)) 0 w.

(** ** [animate] (lines 97-107) *)
Definition animate (w : World) : World :=
  if negb (context2d w) then w else
  let w := ctxCall (ClearRect 0 0 (offsetWidth w) (offsetHeight w)) w in
  let w := forEachOrb w in
  requestAnimationFrame Animate w.

(** ** The effect (lines 25-114) and its cleanup (lines 111-113) *)
Definition effect (rnd : nat -> R) (w : World) : World :=
  if negb (canvasRef w) then w else
  if negb (context2d w) then w else
  let w := setCanvasSize w in
  let w := addEventListener SetCanvasSize w in
  let w :=
    set_orbs w
      (fst (createOrbs (offsetWidth w) (offsetHeight w) palette rnd 0%nat)) in
  let w := animate w in
  set_cleanup w true.

Definition dispose (w : World) : World :=
  removeEventListener SetCanvasSize w.

(** ** What the host does *)

Inductive Event : Type :=
| Resize (ow oh : R) (dpr : option R)
| Frame
| Unmount.

Definition runListener (l : Listener) (w : World) : World :=
  match l with
  | SetCanvasSize => setCanvasSize w
  | OtherListener _ => w
  end.

Definition runFrameCallback (cb : FrameCallback) (w : World) : World :=
  match cb with
  | Animate => animate w
  end.

(** A resize lays the page out again and then runs the listeners that were
    registered when the event was dispatched; a frame runs the callbacks
    that were queued when it began, and what they request waits for the
    next one; unmounting runs the cleanup the effect returned, if any. *)
Definition step (w : World) (e : Event) : World :=
  match e with
  | Resize ow oh dpr =>
      let w := set_layout w ow oh dpr in
      fold_left (fun w l => runListener l w) (resizeListeners w) w
  | Frame =>
      let cbs := frameRequests w in
      let w := set_frameRequests w [] in
      fold_left (fun w cb => runFrameCallback cb w) cbs w
  | Unmount => if cleanup w then dispose w else w
  end.

Definition run (w : World) (es : list Event) : World := fold_left step es w.

(** A page on which nothing has been mounted yet. *)
Definition blankPage (hasCanvas has2d : bool) (ow oh : R) (dpr : option R)
    : World :=
  mkWorld hasCanvas has2d ow oh dpr 300 150 [] [] [] false [].

(** ** The frame callback in two phases

    The design document describes the frame callback as [OrbField.tick()],
    then [renderFrame()], then rescheduling.  These three definitions follow
    its words, not the source; they are compared with [animate] below. *)

Definition spec_tick (w : World) : World :=
  set_orbs w (map (updateOrb (offsetWidth w) (offsetHeight w)) (orbs w)).

Definition spec_renderFrame (w : World) : World :=
  let w := ctxCall (ClearRect 0 0 (offsetWidth w) (offsetHeight w)) w in
  ctxCalls (flat_map drawOrb (orbs w)) w.

Definition spec_frame (w : World) : World :=
  requestAnimationFrame Animate (spec_renderFrame (spec_tick w)).

(** ** Observations used in the statements *)

(** The number of frame callbacks that have painted: each one clears the
    canvas once (line 99) and nothing else does. *)
Definition isClearRect (c : Call) : bool :=
  match c with ClearRect _ _ _ _ => true | _ => false end.

Definition framesPainted (w : World) : nat :=
  List.length (filter isClearRect (calls w)).

(** The bounds of the wraparound rule, for an orb on a surface. *)
Definition inBounds (width height : R) (orb : Orb) : Prop :=
  - radius orb <= x orb <= width + radius orb /\
  - radius orb <= y orb <= height + radius orb.

Definition radiusInRange (orb : Orb) : Prop :=
  baseRadius orb - 30 <= radius orb <= baseRadius orb + 30.

(** The tests of lines 71-74, as they stand in the source. *)
Definition firesLeft (orb : Orb) : Prop := x orb < - radius orb.
Definition firesRight (width : R) (orb : Orb) : Prop :=
  x orb > width + radius orb.
Definition firesTop (orb : Orb) : Prop := y orb < - radius orb.
Definition firesBottom (height : R) (orb : Orb) : Prop :=
  y orb > height + radius orb.

(** Layout sizes are never negative. *)
Definition sizesNonneg (e : Event) : Prop :=
  match e with
  | Resize ow oh _ => 0 <= ow /\ 0 <= oh
  | _ => True
  end.

(** The opacity a CSS colour [rgba(r, g, b, a)] denotes: the decimal numeral
    that stands between the last separator and the closing parenthesis. *)
Fixpoint takeWhile {A : Type} (p : A -> bool) (l : list A) : list A :=
  match l with
  | [] => []
  | a :: t => if p a then a :: takeWhile p t else []
  end.

Fixpoint parseDecimal (cs : list ascii) (acc : Z) (den : option positive)
    : option Q :=
  match cs with
  | [] => Some (acc # match den with Some d => d | None => 1 end)
  | c :: rest =>
      let n := nat_of_ascii c in
      if (n =? 46)%nat then
        match den with
        | None => parseDecimal rest acc (Some 1%positive)
        | Some _ => None
        end
      else if ((48 <=? n)%nat && (n <=? 57)%nat) then
        parseDecimal rest (10 * acc + Z.of_nat (n - 48))%Z
                     (option_map (Pos.mul 10) den)
      else None
  end.

Definition cssAlpha (s : string) : option Q :=
  match rev (list_ascii_of_string s) with
  | c :: before =>
      if isCloseParen c
      then parseDecimal (rev (takeWhile isDigitOrDot before)) 0%Z None
      else None
  | [] => None
  end.

(** The shape of the palette's colour strings: a prefix that does not end
    inside a numeral, then a numeral, then the closing parenthesis. *)
Fixpoint allDigitOrDot (s : string) : bool :=
  match s with
  | EmptyString => true
  | String c rest => isDigitOrDot c && allDigitOrDot rest
  end.

Fixpoint endsOutsideNumeral (s : string) : bool :=
  match s with
  | EmptyString => true
  | String c EmptyString => negb (isDigitOrDot c)
  | String _ rest => endsOutsideNumeral rest
  end.

(** The ranges the design document gives for a freshly created orb, and
    the ranges [createOrb] keeps. *)
Definition claimedRanges (width height : R) (orb : Orb) : Prop :=
  (0 <= x orb < width) /\ (0 <= y orb < height) /\
  (-0.2 < vx orb < 0.2) /\ (-0.2 < vy orb < 0.2) /\
  (0 <= phase orb < 2 * PI) /\
  (0.006 <= pulseSpeed orb <= 0.012).

Definition createdRanges (width height : R) (orb : Orb) : Prop :=
  (0 <= x orb <= width) /\ (0 < width -> x orb < width) /\
  (0 <= y orb <= height) /\ (0 < height -> y orb < height) /\
  (-0.2 <= vx orb < 0.2) /\ (-0.2 <= vy orb < 0.2) /\
  (0 <= phase orb < 2 * PI) /\
  (0.006 <= pulseSpeed orb <= 0.012) /\
  radius orb = baseRadius orb.

(** A world in which the effect has run to its end: the context exists,
    one frame is pending, and the orbs are the palette's, in order, each
    with a radius in range.  A world in which the effect has given up holds
    no orb and no pending frame. *)
Definition Mounted (w : World) : Prop :=
  context2d w = true /\
  frameRequests w = [Animate] /\
  map baseRadius (orbs w) = map snd palette /\
  map color (orbs w) = map fst palette /\
  Forall radiusInRange (orbs w).

Definition Idle (w : World) : Prop :=
  orbs w = [] /\ frameRequests w = [].

Definition sizeNonneg (w : World) : Prop :=
  0 <= offsetWidth w /\ 0 <= offsetHeight w.

Definition countSetCanvasSize (ls : list Listener) : nat :=
  List.length (filter (listener_eqb SetCanvasSize) ls).

(** The page as the call of line 109 finds it when the effect runs on a
    blank page with a canvas and a context: the canvas sized and scaled, the
    listener registered, the six orbs created, nothing painted yet. *)
Definition beforeFirstFrame (rnd : nat -> R) (ow oh : R) (dpr : option R)
    : World :=
  let r := pixelRatio (blankPage true true ow oh dpr) in
  mkWorld true true ow oh dpr
          (canvasAttribute 300 (ow * r)) (canvasAttribute 150 (oh * r))
          [SetCanvasSize] []
          (fst (createOrbs ow oh palette rnd 0%nat)) false [Scale r r].

(** An orb [o] of the running animation, [n] ticks after it was created
    as [c]: what a tick never writes is as it was, the pulse speed has been
    added to the phase [n] times, one addition after the other as line 66
    does, and the radius is the pulse at that phase. *)
Definition evolved (n : nat) (c o : Orb) : Prop :=
  color o = color c /\ baseRadius o = baseRadius c /\
  vx o = vx c /\ vy o = vy c /\ pulseSpeed o = pulseSpeed c /\
  phase o = Nat.iter n (fun p => p + pulseSpeed c) (phase c) /\
  radius o = baseRadius c + sin (phase o) * 30.




(** A change of the page that touches nothing but the two sizes the
    wraparound reads on lines 69-70. *)
Definition onlyWrapSizesChanged (w w' : World) : Prop :=
  canvasRef w' = canvasRef w /\ context2d w' = context2d w /\
  devicePixelRatio w' = devicePixelRatio w /\
  canvasWidth w' = canvasWidth w /\ canvasHeight w' = canvasHeight w /\
  resizeListeners w' = resizeListeners w /\
  frameRequests w' = frameRequests w /\
  orbs w' = orbs w /\ cleanup w' = cleanup w /\ calls w' = calls w.

Definition isFrame (e : Event) : bool :=
  match e with Frame => true | _ => false end.

(** The last character of the string is a closing parenthesis. *)
Fixpoint endsWithCloseParen (s : string) : bool :=
  match s with
  | EmptyString => false
  | String c EmptyString => isCloseParen c
  | String _ rest => endsWithCloseParen rest
  end.

(** ** Concrete inputs *)

(** The first colour of the palette, and the orb of the design document's
    wraparound example; with phase and pulse speed 0 its radius stays at
    its base radius 10. *)
Definition violet : string := "rgba(139, 92, 246, 0.18)".

Definition exampleOrb : Orb :=
  mkOrb (-5) 50 10 10 violet (-1) 0 0 0.

(** A random source that always returns 0, and one that always returns
    one half. *)
Definition zeros : nat -> R := fun _ => 0.
Definition halves : nat -> R := fun _ => 0.5.

Definition examplePage : World := blankPage true true 800 600 (Some 2).


(** * Properties *)

(** ** One tick of one orb *)

Ltac split_tests :=
  repeat match goal with
         | |- context [Rlt_dec ?a ?b] => destruct (Rlt_dec a b)
         | |- context [Rgt_dec ?a ?b] => destruct (Rgt_dec a b)
         end.

Ltac orb_fields :=
  unfold set_x, set_y;
  cbn [x y radius baseRadius color vx vy phase pulseSpeed].

Section OneTick.

Variables width height : R.

Lemma moveOrb_fields (orb : Orb) :
  x (moveOrb orb) = x orb + vx orb /\
  y (moveOrb orb) = y orb + vy orb /\
  phase (moveOrb orb) = phase orb + pulseSpeed orb /\
  radius (moveOrb orb)
    = baseRadius orb + sin (phase orb + pulseSpeed orb) * 30 /\
  baseRadius (moveOrb orb) = baseRadius orb /\
  color (moveOrb orb) = color orb /\
  vx (moveOrb orb) = vx orb /\
  vy (moveOrb orb) = vy orb /\
  pulseSpeed (moveOrb orb) = pulseSpeed orb.
Proof. repeat split. Qed.

Lemma wrapLeft_eq (orb : Orb) :
  wrapLeft width orb
  = set_x orb (if Rlt_dec (x orb) (- radius orb)
               then width + radius orb else x orb).
Proof.
  unfold wrapLeft. destruct (Rlt_dec _ _); destruct orb; reflexivity.
Qed.

Lemma wrapRight_eq (orb : Orb) :
  wrapRight width orb
  = set_x orb (if Rgt_dec (x orb) (width + radius orb)
               then - radius orb else x orb).
Proof.
  unfold wrapRight. destruct (Rgt_dec _ _); destruct orb; reflexivity.
Qed.

Lemma wrapTop_eq (orb : Orb) :
  wrapTop height orb
  = set_y orb (if Rlt_dec (y orb) (- radius orb)
               then height + radius orb else y orb).
Proof.
  unfold wrapTop. destruct (Rlt_dec _ _); destruct orb; reflexivity.
Qed.

Lemma wrapBottom_eq (orb : Orb) :
  wrapBottom height orb
  = set_y orb (if Rgt_dec (y orb) (height + radius orb)
               then - radius orb else y orb).
Proof.
  unfold wrapBottom. destruct (Rgt_dec _ _); destruct orb; reflexivity.
Qed.

(** The four tests, read coordinate by coordinate: the wraparound writes
    to [x] and [y] only, and each axis goes through [wrapAxis]. *)
Lemma wrapOrb_eq (orb : Orb) :
  wrapOrb width height orb
  = mkOrb (wrapAxis width (radius orb) (x orb))
          (wrapAxis height (radius orb) (y orb))
          (baseRadius orb) (radius orb) (color orb)
          (vx orb) (vy orb) (phase orb) (pulseSpeed orb).
Proof.
  destruct orb as [x0 y0 b r c v1 v2 p s].
  unfold wrapOrb, wrapAxis. cbv zeta.
  rewrite wrapLeft_eq; orb_fields.
  rewrite wrapRight_eq; orb_fields.
  rewrite wrapTop_eq; orb_fields.
  rewrite wrapBottom_eq; orb_fields.
  reflexivity.
Qed.

Lemma wrapAxis_bounds (extent r c : R) :
  0 <= extent + 2 * r ->
  - r <= wrapAxis extent r c <= extent + r.
Proof. intros H. unfold wrapAxis. split_tests; lra. Qed.

Lemma wrapAxis_idempotent (extent r c : R) :
  0 <= extent + 2 * r ->
  wrapAxis extent r (wrapAxis extent r c) = wrapAxis extent r c.
Proof.
  intros H. pose proof (wrapAxis_bounds extent r c H) as Hb.
  revert Hb. generalize (wrapAxis extent r c). intros d Hb.
  unfold wrapAxis. split_tests; lra.
Qed.

Lemma wrapAxis_low (extent r c : R) :
  0 <= extent + 2 * r -> c < - r -> wrapAxis extent r c = extent + r.
Proof. intros H Hc. unfold wrapAxis. split_tests; lra. Qed.

Lemma wrapAxis_inside (extent r c : R) :
  ~ c < - r -> ~ c > extent + r -> wrapAxis extent r c = c.
Proof. intros H Hc. unfold wrapAxis. split_tests; lra. Qed.

Lemma updateOrb_baseRadius (orb : Orb) :
  baseRadius (updateOrb width height orb) = baseRadius orb.
Proof. unfold updateOrb. now rewrite wrapOrb_eq. Qed.

Lemma updateOrb_color (orb : Orb) :
  color (updateOrb width height orb) = color orb.
Proof. unfold updateOrb. now rewrite wrapOrb_eq. Qed.

Lemma updateOrb_radius (orb : Orb) :
  radius (updateOrb width height orb) = radius (moveOrb orb).
Proof. unfold updateOrb. now rewrite wrapOrb_eq. Qed.

Lemma updateOrb_x (orb : Orb) :
  x (updateOrb width height orb)
  = wrapAxis width (radius (moveOrb orb)) (x orb + vx orb).
Proof. unfold updateOrb. now rewrite wrapOrb_eq. Qed.

Lemma updateOrb_y (orb : Orb) :
  y (updateOrb width height orb)
  = wrapAxis height (radius (moveOrb orb)) (y orb + vy orb).
Proof. unfold updateOrb. now rewrite wrapOrb_eq. Qed.

Lemma moveOrb_radiusInRange (orb : Orb) :
  baseRadius orb - 30 <= radius (moveOrb orb) <= baseRadius orb + 30.
Proof.
  destruct (moveOrb_fields orb) as (_ & _ & _ & E & _). rewrite E.
  pose proof (SIN_bound (phase orb + pulseSpeed orb)) as [Hlo Hhi].
  lra.
Qed.

Lemma updateOrb_radiusInRange (orb : Orb) :
  radiusInRange (updateOrb width height orb).
Proof.
  unfold radiusInRange.
  rewrite updateOrb_radius, updateOrb_baseRadius.
  apply moveOrb_radiusInRange.
Qed.

(** A wrapped position is inside the bounds as soon as the two bounds of
    each axis are in order. *)
Lemma wrapOrb_inBounds (orb : Orb) :
  0 <= width + 2 * radius orb ->
  0 <= height + 2 * radius orb ->
  inBounds width height (wrapOrb width height orb).
Proof.
  intros Hw Hh. unfold inBounds. rewrite wrapOrb_eq.
  cbn [x y radius].
  split; apply wrapAxis_bounds; assumption.
Qed.

Lemma updateOrb_inBounds (orb : Orb) :
  0 <= width -> 0 <= height -> 30 <= baseRadius orb ->
  inBounds width height (updateOrb width height orb).
Proof.
  intros Hw Hh Hb.
  pose proof (moveOrb_radiusInRange orb) as Hr.
  unfold updateOrb. apply wrapOrb_inBounds; lra.
Qed.

(** When the moved [x] is below [- radius], the tick leaves the orb at
    [width + radius]. *)
Lemma updateOrb_wraps_left (orb : Orb) :
  0 <= width + 2 * radius (moveOrb orb) ->
  firesLeft (moveOrb orb) ->
  x (updateOrb width height orb) = width + radius (moveOrb orb).
Proof.
  intros Hw Hf. rewrite updateOrb_x.
  apply wrapAxis_low; [assumption | exact Hf].
Qed.

Lemma updateOrb_no_wrap_x (orb : Orb) :
  ~ firesLeft (moveOrb orb) ->
  ~ firesRight width (moveOrb orb) ->
  x (updateOrb width height orb) = x orb + vx orb.
Proof.
  intros Hl Hr. rewrite updateOrb_x.
  apply wrapAxis_inside; [exact Hl | exact Hr].
Qed.

End OneTick.

(** ** The wraparound example of the design document *)

Lemma sin_0_0 : sin (0 + 0) = 0.
Proof. replace (0 + 0) with 0 by lra. apply sin_0. Qed.

Lemma exampleOrb_step (c : R) :
  -10 <= c - 1 -> c - 1 <= 810 ->
  updateOrb 800 600 (mkOrb c 50 10 10 violet (-1) 0 0 0)
  = mkOrb (c - 1) 50 10 10 violet (-1) 0 0 0.
Proof.
  intros Hlo Hhi.
  unfold updateOrb. rewrite wrapOrb_eq.
  unfold moveOrb, set_x, set_y, set_phase, set_radius.
  cbn [x y radius baseRadius color vx vy phase pulseSpeed].
  rewrite sin_0_0.
  rewrite !wrapAxis_inside by lra.
  f_equal; lra.
Qed.

Lemma exampleOrb_radius (c : R) :
  radius (moveOrb (mkOrb c 50 10 10 violet (-1) 0 0 0)) = 10.
Proof.
  unfold moveOrb, set_x, set_y, set_phase, set_radius.
  cbn [x y radius baseRadius color vx vy phase pulseSpeed].
  rewrite sin_0_0. lra.
Qed.

(** C3, as stated, fails: the moved position -6 is not below -radius = -10,
    so the test of line 71 does not fire and the tick does not leave the orb
    at 810. *)
Lemma example_tick_does_not_wrap :
  x (moveOrb exampleOrb) = -6 /\
  radius (moveOrb exampleOrb) = 10 /\
  ~ firesLeft (moveOrb exampleOrb) /\
  x (updateOrb 800 600 exampleOrb) <> 810.
Proof.
  assert (Hx : x (moveOrb exampleOrb) = -6).
  { destruct (moveOrb_fields exampleOrb) as (E & _). rewrite E.
    unfold exampleOrb. cbn [x vx]. lra. }
  pose proof (exampleOrb_radius (-5)) as Hr.
  fold exampleOrb in Hr.
  assert (Hu : updateOrb 800 600 exampleOrb
               = mkOrb (-5 - 1) 50 10 10 violet (-1) 0 0 0).
  { apply exampleOrb_step; lra. }
  repeat split; try assumption.
  - unfold firesLeft. rewrite Hx, Hr. lra.
  - rewrite Hu. cbn [x]. lra.
Qed.

(** C3, amended: for an orb at x = -5 with vx = -1 whose radius after the
    pulse is 10, on a surface of width 800, one tick moves x to -6; -6 is
    not below -radius = -10, so no wraparound test fires and x stays -6.
    The tick leaves x at width + radius = 810 exactly when the moved x is
    strictly below -10; with the radius held at 10 that is the sixth tick
    of the example orb, which moves x to -11. *)
Theorem tick_from_minus_five (height : R) (orb : Orb) :
  x orb = -5 -> vx orb = -1 -> radius (moveOrb orb) = 10 ->
  x (moveOrb orb) = -6 /\
  ~ firesLeft (moveOrb orb) /\
  ~ firesRight 800 (moveOrb orb) /\
  x (updateOrb 800 height orb) = -6 /\
  (forall o : Orb,
      radius (moveOrb o) = 10 -> firesLeft (moveOrb o) ->
      x (updateOrb 800 height o) = 810) /\
  Nat.iter 5 (updateOrb 800 600) exampleOrb
    = mkOrb (-10) 50 10 10 violet (-1) 0 0 0 /\
  x (Nat.iter 6 (updateOrb 800 600) exampleOrb) = 810.
Proof.
  intros Hx Hv Hr.
  assert (Hm : x (moveOrb orb) = -6).
  { destruct (moveOrb_fields orb) as (E & _). rewrite E, Hx, Hv. lra. }
  assert (Hl : ~ firesLeft (moveOrb orb)).
  { unfold firesLeft. rewrite Hm, Hr. lra. }
  assert (Hg : ~ firesRight 800 (moveOrb orb)).
  { unfold firesRight. rewrite Hm, Hr. lra. }
  assert (H5 : Nat.iter 5 (updateOrb 800 600) exampleOrb
               = mkOrb (-10) 50 10 10 violet (-1) 0 0 0).
  { cbn [Nat.iter nat_rect]. unfold exampleOrb.
    repeat (rewrite exampleOrb_step by lra).
    f_equal. lra. }
  repeat split; try assumption.
  - rewrite (updateOrb_no_wrap_x 800 height orb Hl Hg), Hx, Hv. lra.
  - intros o Hro Hfo.
    rewrite (updateOrb_wraps_left 800 height o);
      [rewrite Hro; lra | rewrite Hro; lra | assumption].
  - change (Nat.iter 6 (updateOrb 800 600) exampleOrb)
      with (updateOrb 800 600 (Nat.iter 5 (updateOrb 800 600) exampleOrb)).
    rewrite H5.
    pose proof (exampleOrb_radius (-10)) as Hrad.
    rewrite updateOrb_wraps_left; [rewrite Hrad; lra | rewrite Hrad; lra | ].
    unfold firesLeft. rewrite Hrad.
    destruct (moveOrb_fields (mkOrb (-10) 50 10 10 violet (-1) 0 0 0))
      as (E & _).
    rewrite E. cbn [x vx]. lra.
Qed.

Lemma tick_from_minus_five_witness :
  x (updateOrb 800 600 exampleOrb) = -6.
Proof.
  exact (proj1 (proj2 (proj2 (proj2
    (tick_from_minus_five 600 exampleOrb eq_refl eq_refl
       (exampleOrb_radius (-5))))))).
Defined.

(** ** The wraparound applied twice *)

Lemma wrapLeft_y_radius (width : R) (orb : Orb) :
  y (wrapLeft width orb) = y orb /\ radius (wrapLeft width orb) = radius orb.
Proof. unfold wrapLeft. split_tests; split; reflexivity. Qed.

Lemma wrapRight_y_radius (width : R) (orb : Orb) :
  y (wrapRight width orb) = y orb /\
  radius (wrapRight width orb) = radius orb.
Proof. unfold wrapRight. split_tests; split; reflexivity. Qed.

(** C10: on a surface with width >= 0 and height >= 0 and for a radius >= 0,
    at most one of the two tests of each axis fires (a coordinate set to
    width + radius is not above width + radius, one set to -radius is not
    below -radius), and correcting a corrected orb changes nothing. *)
Theorem wrapOrb_idempotent (width height : R) (orb : Orb) :
  0 <= width -> 0 <= height -> 0 <= radius orb ->
  ~ (firesLeft orb /\ firesRight width (wrapLeft width orb)) /\
  ~ (firesTop (wrapRight width (wrapLeft width orb)) /\
     firesBottom height
       (wrapTop height (wrapRight width (wrapLeft width orb)))) /\
  ~ firesRight width (set_x orb (width + radius orb)) /\
  ~ firesLeft (set_x orb (- radius orb)) /\
  ~ firesBottom height (set_y orb (height + radius orb)) /\
  ~ firesTop (set_y orb (- radius orb)) /\
  wrapOrb width height (wrapOrb width height orb) = wrapOrb width height orb.
Proof.
  intros Hw Hh Hr.
  repeat split.
  - unfold firesLeft, firesRight, wrapLeft. intros [H1 H2]. revert H2.
    destruct (Rlt_dec (x orb) (- radius orb)); cbn [x radius set_x]; lra.
  - destruct (wrapRight_y_radius width (wrapLeft width orb)) as [Ey Er].
    destruct (wrapLeft_y_radius width orb) as [Ey' Er'].
    rewrite Ey' in Ey. rewrite Er' in Er.
    revert Ey Er. generalize (wrapRight width (wrapLeft width orb)).
    intros o Ey Er.
    unfold firesTop, firesBottom, wrapTop. intros [H1 H2]. revert H2.
    destruct (Rlt_dec (y o) (- radius o)); cbn [y radius set_y]; lra.
  - unfold firesRight. cbn [x radius set_x]. lra.
  - unfold firesLeft. cbn [x radius set_x]. lra.
  - unfold firesBottom. cbn [y radius set_y]. lra.
  - unfold firesTop. cbn [y radius set_y]. lra.
  - rewrite (wrapOrb_eq width height (wrapOrb width height orb)).
    rewrite (wrapOrb_eq width height orb).
    cbn [x y radius baseRadius color vx vy phase pulseSpeed].
    rewrite !wrapAxis_idempotent by lra. reflexivity.
Qed.

Lemma wrapOrb_idempotent_witness :
  wrapOrb 800 600 (wrapOrb 800 600 exampleOrb) = wrapOrb 800 600 exampleOrb.
Proof.
  apply (wrapOrb_idempotent 800 600 exampleOrb);
    unfold exampleOrb; cbn [radius]; lra.
Defined.

(** ** Creating the orbs *)

Section Creation.

Variable rnd : nat -> R.
Variables width height : R.

Lemma createOrb_run (c : string) (b : R) (i : nat) :
  createOrb width height c b rnd i
  = ({| x := rnd i * width;
        y := rnd (1 + i)%nat * height;
        baseRadius := b;
        radius := b;
        color := c;
        vx := (rnd (2 + i)%nat - 0.5) * 0.4;
        vy := (rnd (3 + i)%nat - 0.5) * 0.4;
        phase := rnd (4 + i)%nat * PI * 2;
        pulseSpeed := 0.006 + rnd (5 + i)%nat * 0.006 |}, (6 + i)%nat).
Proof. reflexivity. Qed.

Lemma createOrbs_cons (c : string) (b : R) (rest : list (string * R))
    (i : nat) :
  createOrbs width height ((c, b) :: rest) rnd i
  = (fst (createOrb width height c b rnd i)
       :: fst (createOrbs width height rest rnd (6 + i)%nat),
     snd (createOrbs width height rest rnd (6 + i)%nat)).
Proof.
  cbn [createOrbs]. unfold bind at 1. rewrite createOrb_run.
  unfold bind at 1.
  destruct (createOrbs width height rest rnd (6 + i)%nat) as [os j].
  reflexivity.
Qed.

(** One orb per entry, with the entry's colour and base radius, and six
    draws per orb. *)
Lemma createOrbs_shape (entries : list (string * R)) (i : nat) :
  map color (fst (createOrbs width height entries rnd i))
    = map fst entries /\
  map baseRadius (fst (createOrbs width height entries rnd i))
    = map snd entries /\
  snd (createOrbs width height entries rnd i)
    = (6 * List.length entries + i)%nat.
Proof.
  revert i. induction entries as [|[c b] rest IH]; intros i.
  - repeat split.
  - rewrite createOrbs_cons. destruct (IH (6 + i)%nat) as (Hc & Hb & Hn).
    cbn [fst snd map List.length]. rewrite Hc, Hb, Hn.
    repeat split. lia.
Qed.

Hypothesis rnd_unit : forall i, 0 <= rnd i < 1.
Hypothesis width_nonneg : 0 <= width.
Hypothesis height_nonneg : 0 <= height.

Lemma createOrb_ranges (c : string) (b : R) (i : nat) :
  createdRanges width height (fst (createOrb width height c b rnd i)).
Proof.
  rewrite createOrb_run. unfold createdRanges.
  cbn [fst x y vx vy phase pulseSpeed radius baseRadius].
  pose proof (rnd_unit i). pose proof (rnd_unit (1 + i)).
  pose proof (rnd_unit (2 + i)). pose proof (rnd_unit (3 + i)).
  pose proof (rnd_unit (4 + i)). pose proof (rnd_unit (5 + i)).
  pose proof PI_RGT_0.
  repeat split; try nra.
Qed.

Lemma createOrbs_ranges (entries : list (string * R)) (i : nat) :
  Forall (createdRanges width height)
         (fst (createOrbs width height entries rnd i)).
Proof.
  revert i. induction entries as [|[c b] rest IH]; intros i.
  - constructor.
  - rewrite createOrbs_cons. cbn [fst].
    constructor; [apply createOrb_ranges | apply IH].
Qed.

End Creation.

(** C6, as stated, fails: a draw of 0, which [Math.random] may return,
    gives the velocity component -0.2, outside the open interval
    (-0.2, 0.2). *)
Lemma zero_draw_leaves_claimed_ranges :
  (forall i, 0 <= zeros i < 1) /\
  ~ Forall (claimedRanges 800 600)
           (fst (createOrbs 800 600 palette zeros 0%nat)).
Proof.
  split.
  - intros i. unfold zeros. lra.
  - unfold palette. rewrite createOrbs_cons, createOrb_run. cbn [fst].
    intros H. inversion H as [|o os Ho _]; subst.
    destruct Ho as (_ & _ & Hv & _). cbn [vx] in Hv.
    unfold zeros in Hv. lra.
Qed.

(** C6, amended: initialising with the fixed 6-entry palette yields exactly
    6 orbs, carrying the palette's colours and base radii in order, and for
    every draw of the random source from [0, 1) and every surface with
    width >= 0 and height >= 0 each orb has 0 <= x <= width with x < width
    when width > 0 (likewise y and height), each velocity component in
    [-0.2, 0.2), its phase in [0, 2 pi), its pulseSpeed in [0.006, 0.012],
    and its radius equal to its base radius. *)
Theorem createOrbs_palette (rnd : nat -> R) (width height : R) :
  (forall i, 0 <= rnd i < 1) -> 0 <= width -> 0 <= height ->
  let created := fst (createOrbs width height palette rnd 0%nat) in
  List.length created = 6%nat /\
  map color created = map fst palette /\
  map baseRadius created = map snd palette /\
  Forall (createdRanges width height) created.
Proof.
  intros Hr Hw Hh created.
  destruct (createOrbs_shape rnd width height palette 0) as (Hc & Hb & _).
  split; [|split; [|split]].
  - unfold created. rewrite <- (length_map color), Hc. reflexivity.
  - exact Hc.
  - exact Hb.
  - apply createOrbs_ranges; assumption.
Qed.

Lemma createOrbs_palette_witness :
  List.length (fst (createOrbs 800 600 palette halves 0%nat)) = 6%nat.
Proof.
  apply (createOrbs_palette halves 800 600).
  - intros i. unfold halves. lra.
  - lra.
  - lra.
Defined.

(** ** The mid stop of the gradient *)

Section Regex.

Local Open Scope string_scope.

Lemma append_nonempty (u : string) (c : ascii) (v : string) :
  u ++ String c v <> "".
Proof. destruct u; discriminate. Qed.

(** A character outside the class that is not the last one rules out a
    match that starts before it. *)
Lemma matchesTail_stops (u : string) (seen : bool) (c : ascii)
    (v : string) :
  isDigitOrDot c = false -> v <> "" ->
  matchesTail seen (u ++ String c v) = false.
Proof.
  intros Hc Hv. revert seen.
  induction u as [|a u IH]; intros seen; cbn [append matchesTail].
  - rewrite Hc. destruct (isCloseParen c); [|reflexivity].
    destruct v; [contradiction|]. apply andb_false_r.
  - destruct (isDigitOrDot a); [apply IH|].
    destruct (isCloseParen a); [|reflexivity].
    pose proof (append_nonempty u c v) as Hne.
    destruct (u ++ String c v); [contradiction|]. apply andb_false_r.
Qed.

Lemma matchesTail_numeral (alpha : string) (seen : bool) :
  allDigitOrDot alpha = true ->
  matchesTail seen (alpha ++ ")")
  = seen || match alpha with "" => false | _ => true end.
Proof.
  revert seen. induction alpha as [|a alpha IH]; intros seen Ha.
  - cbn. now rewrite orb_false_r, andb_true_r.
  - cbn [allDigitOrDot] in Ha. apply andb_prop in Ha as [Ha1 Ha2].
    cbn [append matchesTail]. rewrite Ha1, (IH true Ha2).
    now rewrite orb_true_r.
Qed.

Lemma endsOutsideNumeral_last (s : string) :
  s <> "" -> endsOutsideNumeral s = true ->
  exists u d, s = u ++ String d "" /\ isDigitOrDot d = false.
Proof.
  induction s as [|c s IH]; intros Hne Hs; [contradiction|].
  destruct s as [|c' s'].
  - exists "", c. split; [reflexivity|].
    cbn in Hs. now apply negb_true_iff in Hs.
  - destruct IH as (u & d & E & Hd); [discriminate | exact Hs |].
    exists (String c u), d. split; [|exact Hd].
    cbn [append]. now rewrite <- E.
Qed.

Lemma append_assoc (a b c : string) : (a ++ b) ++ c = a ++ (b ++ c).
Proof. induction a as [|h a IH]; cbn; [reflexivity | now rewrite IH]. Qed.

Lemma replaceAlpha_unfold (s : string) :
  replaceAlpha s
  = if matchesHere s then "0.05)"
    else match s with
         | "" => ""
         | String c rest => String c (replaceAlpha rest)
         end.
Proof. destruct s; reflexivity. Qed.

(** The replacement on a colour that ends in a numeral and a closing
    parenthesis: the numeral, whole, becomes 0.05. *)
Lemma replaceAlpha_numeral (pre alpha : string) :
  alpha <> "" -> allDigitOrDot alpha = true ->
  endsOutsideNumeral pre = true ->
  replaceAlpha (pre ++ alpha ++ ")") = pre ++ "0.05)".
Proof.
  intros Hne Ha. induction pre as [|c pre IH]; intros Hp.
  - cbn [append]. destruct alpha as [|a alpha]; [contradiction|].
    rewrite replaceAlpha_unfold. unfold matchesHere.
    rewrite (matchesTail_numeral (String a alpha) false Ha). reflexivity.
  - assert (Hno : matchesHere (String c pre ++ alpha ++ ")") = false).
    { destruct (endsOutsideNumeral_last (String c pre)) as (u & d & E & Hd);
        [discriminate | exact Hp |].
      rewrite E, append_assoc. cbn [append].
      apply matchesTail_stops; [exact Hd|].
      destruct alpha; discriminate. }
    rewrite replaceAlpha_unfold, Hno. cbn [append]. f_equal. apply IH.
    destruct pre; [reflexivity | exact Hp].
Qed.

Lemma replaceAlpha_violet :
  replaceAlpha violet = "rgba(139, 92, 246, 0.05)".
Proof. vm_compute. reflexivity. Qed.

(** Every colour of the palette has that shape, so its mid stop is the
    same red, green and blue with the opacity 0.05. *)
Lemma palette_mid_stops :
  map (fun e => replaceAlpha (fst e)) palette
  = [ "rgba(139, 92, 246, 0.05)"; "rgba(192, 132, 252, 0.05)";
      "rgba(236, 72, 153, 0.05)"; "rgba(212, 175, 55, 0.05)";
      "rgba(99, 102, 241, 0.05)"; "rgba(244, 114, 182, 0.05)" ].
Proof.
  unfold palette. cbn [map fst].
  repeat (f_equal; [vm_compute; reflexivity|]). reflexivity.
Qed.

End Regex.

Lemma gradientOf_stops (orb : Orb) :
  stops (gradientOf orb)
  = [ (0, color orb); (0.5, replaceAlpha (color orb));
      (1, "transparent"%string) ].
Proof. reflexivity. Qed.

(** C2, as stated, fails: the mid stop of the violet orb has opacity 0.05,
    which is more than a quarter of the orb colour's opacity 0.18, not
    around a twentieth of it (0.009). *)
Lemma mid_stop_opacity_is_not_relative :
  map snd (stops (gradientOf exampleOrb))
    = [ violet; "rgba(139, 92, 246, 0.05)"%string; "transparent"%string ] /\
  cssAlpha (color exampleOrb) = Some (18 # 100)%Q /\
  cssAlpha "rgba(139, 92, 246, 0.05)" = Some (5 # 100)%Q /\
  ~ (5 # 100 <= (1 # 4) * (18 # 100))%Q.
Proof.
  split; [|split; [|split]].
  - rewrite gradientOf_stops. cbn [map snd color exampleOrb].
    now rewrite replaceAlpha_violet.
  - vm_compute. reflexivity.
  - vm_compute. reflexivity.
  - intros H. vm_compute in H. apply H. reflexivity.
Qed.

(** C2, amended: for every orb whose colour ends in a numeral followed by a
    closing parenthesis (the palette's colours all do), the radial gradient
    painted for it runs from the circle of radius 0 to the circle of the
    orb's current radius, both centred at the orb's position, and has
    exactly three stops: the orb's colour at offset 0, the same colour with
    its trailing opacity numeral replaced by the fixed value 0.05 at offset
    0.5, and transparent at offset 1; the disc filled with it has the orb's
    position as centre and the orb's radius. *)
Theorem drawOrb_gradient (orb : Orb) (pre alpha : string) :
  color orb = (pre ++ alpha ++ ")")%string ->
  alpha <> ""%string ->
  allDigitOrDot alpha = true ->
  endsOutsideNumeral pre = true ->
  stops (gradientOf orb)
    = [ (0, color orb); (0.5, (pre ++ "0.05)")%string);
        (1, "transparent"%string) ] /\
  (gx0 (gradientOf orb), gy0 (gradientOf orb), gr0 (gradientOf orb))
    = (x orb, y orb, 0) /\
  (gx1 (gradientOf orb), gy1 (gradientOf orb), gr1 (gradientOf orb))
    = (x orb, y orb, radius orb) /\
  drawOrb orb
    = [ BeginPath; Arc (x orb) (y orb) (radius orb) 0 (PI * 2);
        SetFillStyle (gradientOf orb); Fill ].
Proof.
  intros Hc Hne Ha Hp.
  split; [|repeat split].
  rewrite gradientOf_stops, Hc.
  now rewrite (replaceAlpha_numeral pre alpha Hne Ha Hp).
Qed.

Lemma drawOrb_gradient_witness :
  stops (gradientOf exampleOrb)
  = [ (0, violet); (0.5, "rgba(139, 92, 246, 0.05)"%string);
      (1, "transparent"%string) ].
Proof.
  apply (drawOrb_gradient exampleOrb "rgba(139, 92, 246, " "0.18").
  - reflexivity.
  - discriminate.
  - reflexivity.
  - reflexivity.
Defined.

(** ** The frame callback *)

Ltac world_fields :=
  unfold ctxCall, ctxCalls, requestAnimationFrame, set_layout,
         set_canvasWidth, set_canvasHeight, set_resizeListeners,
         set_frameRequests, set_orbs, set_cleanup, set_calls in *;
  cbn [canvasRef context2d offsetWidth offsetHeight devicePixelRatio
       canvasWidth canvasHeight resizeListeners frameRequests orbs cleanup
       calls] in *.

Section FrameCallback.

Lemma nth_error_middle {A : Type} (done : list A) (a : A) (todo : list A) :
  nth_error (done ++ a :: todo) (List.length done) = Some a.
Proof. induction done as [|d done IH]; [reflexivity | exact IH]. Qed.

Lemma set_nth_middle {A : Type} (done : list A) (a v : A)
    (todo : list A) :
  set_nth (List.length done) v (done ++ a :: todo) = done ++ v :: todo.
Proof.
  induction done as [|d done IH]; [reflexivity|].
  cbn [List.length app set_nth]. now rewrite IH.
Qed.

(** The loop of lines 101-104, started at index [length done] with
    [todo] still to visit: the orbs already visited are left alone, each
    remaining orb is updated in place, and the updated orbs are painted
    in order. *)
Lemma forEachFrom_spec (todo done : list Orb) (w : World) :
  context2d w = true ->
  orbs w = done ++ todo ->
  forEachFrom (List.length todo) (List.length done) w
  = set_calls
      (set_orbs w
         (done ++ map (updateOrb (offsetWidth w) (offsetHeight w)) todo))
      (calls w
         ++ flat_map drawOrb
              (map (updateOrb (offsetWidth w) (offsetHeight w)) todo)).
Proof.
  revert done w. induction todo as [|o todo IH]; intros done w Hctx Horbs.
  - cbn [List.length forEachFrom map flat_map].
    rewrite !app_nil_r. rewrite app_nil_r in Horbs.
    destruct w. world_fields. now subst.
  - cbn [List.length forEachFrom].
    set (o' := updateOrb (offsetWidth w) (offsetHeight w) o).
    assert (Hvisit : visitOrb (List.length done) w
                     = ctxCalls (drawOrb o')
                                (set_orbs w (done ++ o' :: todo))).
    { unfold visitOrb. rewrite Horbs, nth_error_middle.
      fold o'. cbv zeta.
      assert (E : orbs (set_orbs w
                    (set_nth (List.length done) o' (done ++ o :: todo)))
                  = done ++ o' :: todo).
      { world_fields. apply set_nth_middle. }
      rewrite E, nth_error_middle, set_nth_middle.
      unfold drawOrbW.
      assert (C : context2d (set_orbs w (done ++ o' :: todo)) = true)
        by (world_fields; exact Hctx).
      now rewrite C. }
    rewrite Hvisit.
    replace (S (List.length done)) with (List.length (done ++ [o']))
      by (rewrite length_app; cbn; lia).
    rewrite IH.
    + destruct w. world_fields. cbn [map flat_map].
      rewrite <- !app_assoc. reflexivity.
    + world_fields. exact Hctx.
    + world_fields. now rewrite <- app_assoc.
Qed.

Lemma forEachOrb_spec (w : World) :
  context2d w = true ->
  forEachOrb w
  = set_calls
      (set_orbs w (map (updateOrb (offsetWidth w) (offsetHeight w))
                       (orbs w)))
      (calls w
         ++ flat_map drawOrb
              (map (updateOrb (offsetWidth w) (offsetHeight w)) (orbs w))).
Proof.
  intros Hctx. unfold forEachOrb.
  exact (forEachFrom_spec (orbs w) [] w Hctx eq_refl).
Qed.

End FrameCallback.

Lemma animate_spec_frame (w : World) :
  context2d w = true -> animate w = spec_frame w.
Proof.
  intros Hctx. unfold animate, spec_frame, spec_renderFrame, spec_tick.
  rewrite Hctx. cbn [negb]. cbv zeta.
  rewrite forEachOrb_spec by (world_fields; exact Hctx).
  destruct w. world_fields. rewrite <- !app_assoc. reflexivity.
Qed.

(** C8: whenever the frame callback runs with a context, interleaving
    update and draw orb by orb leaves the same orbs, the same sequence of
    painted orbs and the same rescheduling as advancing every orb first and
    painting them all afterwards. *)
Theorem animate_two_phase (w : World) :
  context2d w = true ->
  animate w = spec_frame w /\
  orbs (animate w)
    = map (updateOrb (offsetWidth w) (offsetHeight w)) (orbs w) /\
  calls (animate w)
    = calls w ++ ClearRect 0 0 (offsetWidth w) (offsetHeight w)
        :: flat_map drawOrb
             (map (updateOrb (offsetWidth w) (offsetHeight w)) (orbs w)).
Proof.
  intros Hctx. rewrite (animate_spec_frame w Hctx).
  split; [reflexivity|]. destruct w.
  unfold spec_frame, spec_renderFrame, spec_tick. world_fields.
  split; [reflexivity|]. now rewrite <- app_assoc.
Qed.

Lemma animate_two_phase_witness :
  animate (set_orbs examplePage [exampleOrb])
  = spec_frame (set_orbs examplePage [exampleOrb]).
Proof.
  apply (animate_two_phase (set_orbs examplePage [exampleOrb])).
  reflexivity.
Defined.

(** ** The life of the effect *)

Section Lifecycle.

(** What a frame callback leaves behind. *)
Lemma animate_fields (w : World) :
  context2d w = true ->
  context2d (animate w) = true /\
  offsetWidth (animate w) = offsetWidth w /\
  offsetHeight (animate w) = offsetHeight w /\
  resizeListeners (animate w) = resizeListeners w /\
  cleanup (animate w) = cleanup w /\
  frameRequests (animate w) = frameRequests w ++ [Animate] /\
  orbs (animate w)
    = map (updateOrb (offsetWidth w) (offsetHeight w)) (orbs w) /\
  calls (animate w)
    = calls w ++ ClearRect 0 0 (offsetWidth w) (offsetHeight w)
        :: flat_map drawOrb
             (map (updateOrb (offsetWidth w) (offsetHeight w)) (orbs w)).
Proof.
  intros Hctx. rewrite (animate_spec_frame w Hctx).
  unfold spec_frame, spec_renderFrame, spec_tick.
  destruct w. world_fields. rewrite <- app_assoc.
  repeat split. exact Hctx.
Qed.

Lemma drawOrb_no_clear (os : list Orb) :
  filter isClearRect (flat_map drawOrb os) = [].
Proof. induction os as [|o os IH]; [reflexivity | exact IH]. Qed.

Lemma animate_framesPainted (w : World) :
  context2d w = true ->
  framesPainted (animate w) = S (framesPainted w).
Proof.
  intros Hctx. unfold framesPainted.
  destruct (animate_fields w Hctx) as (_ & _ & _ & _ & _ & _ & _ & Hc).
  rewrite Hc, filter_app, length_app. cbn [filter isClearRect].
  rewrite drawOrb_no_clear. cbn [List.length]. lia.
Qed.

(** What the resize listeners leave behind: [setCanvasSize] writes the
    canvas attributes and scales the context, once per registration. *)
Lemma pixelRatio_layout (w w' : World) :
  devicePixelRatio w' = devicePixelRatio w ->
  pixelRatio w' = pixelRatio w.
Proof. unfold pixelRatio. now intros ->. Qed.

Lemma runListeners_spec (ls : list Listener) (w : World) :
  fold_left (fun w l => runListener l w) ls w
  = mkWorld (canvasRef w) (context2d w) (offsetWidth w) (offsetHeight w)
      (devicePixelRatio w)
      (if (countSetCanvasSize ls =? 0)%nat then canvasWidth w
       else canvasAttribute 300 (offsetWidth w * pixelRatio w))
      (if (countSetCanvasSize ls =? 0)%nat then canvasHeight w
       else canvasAttribute 150 (offsetHeight w * pixelRatio w))
      (resizeListeners w) (frameRequests w) (orbs w) (cleanup w)
      (calls w ++ repeat (Scale (pixelRatio w) (pixelRatio w))
                         (countSetCanvasSize ls)).
Proof.
  revert w. induction ls as [|l ls IH]; intros w.
  - cbn. rewrite app_nil_r. destruct w. reflexivity.
  - cbn [fold_left]. rewrite IH. destruct l as [|id].
    + unfold countSetCanvasSize. cbn [filter listener_eqb List.length].
      fold (countSetCanvasSize ls).
      assert (Hp : pixelRatio (setCanvasSize w) = pixelRatio w)
        by (apply pixelRatio_layout; reflexivity).
      cbn [runListener]. rewrite Hp.
      unfold setCanvasSize. destruct w. world_fields.
      rewrite <- app_assoc. cbn [Nat.eqb repeat app].
      destruct (countSetCanvasSize ls =? 0)%nat; reflexivity.
    + unfold countSetCanvasSize. cbn [filter listener_eqb runListener].
      reflexivity.
Qed.

Lemma step_Resize_fields (w : World) (ow oh : R) (dpr : option R) :
  let w' := step w (Resize ow oh dpr) in
  canvasRef w' = canvasRef w /\
  context2d w' = context2d w /\
  offsetWidth w' = ow /\
  offsetHeight w' = oh /\
  devicePixelRatio w' = dpr /\
  resizeListeners w' = resizeListeners w /\
  frameRequests w' = frameRequests w /\
  orbs w' = orbs w /\
  cleanup w' = cleanup w /\
  calls w'
    = calls w ++ repeat (Scale (pixelRatio w') (pixelRatio w'))
                        (countSetCanvasSize (resizeListeners w)).
Proof.
  cbn [step]. cbv zeta. rewrite runListeners_spec.
  destruct w. world_fields. unfold pixelRatio. world_fields.
  repeat split.
Qed.

Lemma set_frameRequests_fields (w : World) (q : list FrameCallback) :
  context2d (set_frameRequests w q) = context2d w /\
  offsetWidth (set_frameRequests w q) = offsetWidth w /\
  offsetHeight (set_frameRequests w q) = offsetHeight w /\
  orbs (set_frameRequests w q) = orbs w.
Proof. destruct w. repeat split. Qed.

Lemma step_Frame_pending (w : World) :
  frameRequests w = [Animate] ->
  step w Frame = animate (set_frameRequests w []).
Proof. intros H. cbn [step]. now rewrite H. Qed.

Lemma step_Frame_empty (w : World) :
  frameRequests w = [] -> step w Frame = w.
Proof.
  intros H. cbn [step]. rewrite H. cbn [fold_left].
  destruct w. world_fields. now subst.
Qed.

Lemma dispose_idempotent (w : World) : dispose (dispose w) = dispose w.
Proof.
  unfold dispose, removeEventListener. destruct w. world_fields.
  f_equal. induction resizeListeners0 as [|l ls IH]; [reflexivity|].
  cbn [filter]. destruct (negb (listener_eqb SetCanvasSize l)) eqn:E.
  - cbn [filter]. rewrite E. now rewrite IH.
  - exact IH.
Qed.

Lemma dispose_fields (w : World) :
  context2d (dispose w) = context2d w /\
  offsetWidth (dispose w) = offsetWidth w /\
  offsetHeight (dispose w) = offsetHeight w /\
  frameRequests (dispose w) = frameRequests w /\
  orbs (dispose w) = orbs w /\
  cleanup (dispose w) = cleanup w /\
  calls (dispose w) = calls w /\
  ~ In SetCanvasSize (resizeListeners (dispose w)).
Proof.
  unfold dispose, removeEventListener. destruct w. world_fields.
  repeat split. intros Hin. apply filter_In in Hin as [_ Hin].
  discriminate.
Qed.

(** The palette's base radii leave room for the pulse. *)
Lemma palette_baseRadius (os : list Orb) :
  map baseRadius os = map snd palette ->
  Forall (fun o => 30 <= baseRadius o) os.
Proof.
  intros H. apply Forall_map. rewrite H.
  unfold palette. cbn [map snd]. repeat constructor; lra.
Qed.

Lemma map_updateOrb_mounted (ow oh : R) (os : list Orb) :
  map baseRadius (map (updateOrb ow oh) os) = map baseRadius os /\
  map color (map (updateOrb ow oh) os) = map color os /\
  Forall radiusInRange (map (updateOrb ow oh) os).
Proof.
  rewrite !map_map. repeat split.
  - apply map_ext. intros o. apply updateOrb_baseRadius.
  - apply map_ext. intros o. apply updateOrb_color.
  - apply Forall_map. apply Forall_forall. intros o _.
    apply updateOrb_radiusInRange.
Qed.

Lemma animate_Mounted (w : World) :
  context2d w = true ->
  frameRequests w = [] ->
  map baseRadius (orbs w) = map snd palette ->
  map color (orbs w) = map fst palette ->
  Mounted (animate w).
Proof.
  intros Hctx Hq Hb Hc.
  destruct (animate_fields w Hctx) as (H1 & _ & _ & _ & _ & H2 & H3 & _).
  destruct (map_updateOrb_mounted (offsetWidth w) (offsetHeight w) (orbs w))
    as (Eb & Ec & Er).
  unfold Mounted. rewrite H1, H2, H3, Hq, Eb, Ec, Hb, Hc.
  repeat split. exact Er.
Qed.

Lemma step_Mounted (w : World) (e : Event) :
  Mounted w -> Mounted (step w e).
Proof.
  intros (Hctx & Hq & Hb & Hc & Hr). destruct e as [ow oh dpr| |].
  - destruct (step_Resize_fields w ow oh dpr)
      as (_ & E1 & _ & _ & _ & _ & E2 & E3 & _).
    unfold Mounted. rewrite E1, E2, E3. repeat split; assumption.
  - rewrite (step_Frame_pending w Hq).
    apply animate_Mounted; destruct w; world_fields; assumption || reflexivity.
  - cbn [step]. destruct (cleanup w); [|repeat split; assumption].
    destruct (dispose_fields w) as (E1 & _ & _ & E2 & E3 & _).
    unfold Mounted. rewrite E1, E2, E3. repeat split; assumption.
Qed.

Lemma step_Idle (w : World) (e : Event) : Idle w -> Idle (step w e).
Proof.
  intros (Ho & Hq). destruct e as [ow oh dpr| |].
  - destruct (step_Resize_fields w ow oh dpr)
      as (_ & _ & _ & _ & _ & _ & E2 & E3 & _).
    unfold Idle. rewrite E2, E3. split; assumption.
  - rewrite (step_Frame_empty w Hq). split; assumption.
  - cbn [step]. destruct (cleanup w); [|split; assumption].
    destruct (dispose_fields w) as (_ & _ & _ & E2 & E3 & _).
    unfold Idle. rewrite E2, E3. split; assumption.
Qed.

Lemma run_Mounted (es : list Event) (w : World) :
  Mounted w -> Mounted (run w es).
Proof.
  revert w. induction es as [|e es IH]; intros w H; [exact H|].
  apply IH, step_Mounted, H.
Qed.

Lemma run_Idle (es : list Event) (w : World) : Idle w -> Idle (run w es).
Proof.
  revert w. induction es as [|e es IH]; intros w H; [exact H|].
  apply IH, step_Idle, H.
Qed.

Lemma step_sizeNonneg (w : World) (e : Event) :
  Mounted w \/ Idle w ->
  sizesNonneg e -> sizeNonneg w -> sizeNonneg (step w e).
Proof.
  intros Hw He (H1 & H2). destruct e as [ow oh dpr| |].
  - destruct (step_Resize_fields w ow oh dpr) as (_ & _ & E1 & E2 & _).
    unfold sizeNonneg. rewrite E1, E2. exact He.
  - destruct Hw as [(Hctx & Hq & _) | (_ & Hq)].
    + rewrite (step_Frame_pending w Hq).
      destruct (animate_fields (set_frameRequests w []))
        as (_ & A2 & A3 & _); [destruct w; exact Hctx|].
      unfold sizeNonneg. rewrite A2, A3.
      destruct w; world_fields. split; assumption.
    + rewrite (step_Frame_empty w Hq). split; assumption.
  - cbn [step]. destruct (cleanup w); [|split; assumption].
    destruct (dispose_fields w) as (_ & E1 & E2 & _).
    unfold sizeNonneg. rewrite E1, E2. split; assumption.
Qed.

Lemma run_sizeNonneg (es : list Event) (w : World) :
  Mounted w \/ Idle w ->
  Forall sizesNonneg es -> sizeNonneg w ->
  sizeNonneg (run w es) /\ (Mounted (run w es) \/ Idle (run w es)).
Proof.
  revert w. induction es as [|e es IH]; intros w Hw Hes Hs.
  - split; assumption.
  - inversion Hes as [|e' es' He Hes']; subst.
    apply IH; [|assumption|].
    + destruct Hw as [Hw|Hw];
        [left; apply step_Mounted | right; apply step_Idle]; exact Hw.
    + apply step_sizeNonneg; assumption.
Qed.

End Lifecycle.

(** ** Mounting *)

Section Mounting.

Variable rnd : nat -> R.

Lemma effect_absent (w : World) :
  canvasRef w = false \/ context2d w = false -> effect rnd w = w.
Proof.
  intros [H | H]; unfold effect; rewrite H; cbn [negb];
    [|destruct (canvasRef w)]; reflexivity.
Qed.

Lemma setCanvasSize_blankPage (ow oh : R) (dpr : option R) :
  setCanvasSize (blankPage true true ow oh dpr)
  = mkWorld true true ow oh dpr
      (canvasAttribute 300 (ow * pixelRatio (blankPage true true ow oh dpr)))
      (canvasAttribute 150 (oh * pixelRatio (blankPage true true ow oh dpr)))
      [] [] [] false
      [Scale (pixelRatio (blankPage true true ow oh dpr))
             (pixelRatio (blankPage true true ow oh dpr))].
Proof.
  unfold setCanvasSize. cbv zeta.
  generalize (pixelRatio (blankPage true true ow oh dpr)). intros r.
  reflexivity.
Qed.

Lemma effect_blankPage_eq (ow oh : R) (dpr : option R) :
  effect rnd (blankPage true true ow oh dpr)
  = set_cleanup (animate (beforeFirstFrame rnd ow oh dpr)) true.
Proof.
  unfold effect. cbn [blankPage canvasRef context2d negb]. cbv zeta.
  fold (blankPage true true ow oh dpr).
  rewrite setCanvasSize_blankPage. unfold beforeFirstFrame. cbv zeta.
  generalize (pixelRatio (blankPage true true ow oh dpr)). intros r.
  reflexivity.
Qed.

Lemma effect_blankPage (ow oh : R) (dpr : option R) :
  let m := effect rnd (blankPage true true ow oh dpr) in
  Mounted m /\
  cleanup m = true /\
  resizeListeners m = [SetCanvasSize] /\
  offsetWidth m = ow /\ offsetHeight m = oh /\
  orbs m
    = map (updateOrb ow oh) (fst (createOrbs ow oh palette rnd 0%nat)) /\
  framesPainted m = 1%nat.
Proof.
  cbv zeta. rewrite effect_blankPage_eq.
  assert (Hctx : context2d (beforeFirstFrame rnd ow oh dpr) = true)
    by reflexivity.
  assert (Hq : frameRequests (beforeFirstFrame rnd ow oh dpr) = [])
    by reflexivity.
  assert (Ho : orbs (beforeFirstFrame rnd ow oh dpr)
               = fst (createOrbs ow oh palette rnd 0%nat)) by reflexivity.
  assert (Hl : resizeListeners (beforeFirstFrame rnd ow oh dpr)
               = [SetCanvasSize]) by reflexivity.
  assert (Hw : offsetWidth (beforeFirstFrame rnd ow oh dpr) = ow)
    by reflexivity.
  assert (Hh : offsetHeight (beforeFirstFrame rnd ow oh dpr) = oh)
    by reflexivity.
  assert (Hp : framesPainted (beforeFirstFrame rnd ow oh dpr) = 0%nat)
    by reflexivity.
  destruct (createOrbs_shape rnd ow oh palette 0) as (Hc & Hb & _).
  pose proof (animate_Mounted _ Hctx Hq) as HM.
  rewrite Ho in HM. specialize (HM Hb Hc).
  pose proof (animate_framesPainted _ Hctx) as HF.
  destruct (animate_fields _ Hctx)
    as (_ & A2 & A3 & A4 & _ & _ & A7 & _).
  rewrite Ho, Hw, Hh in A7. rewrite Hw in A2. rewrite Hh in A3.
  rewrite Hl in A4. rewrite Hp in HF.
  revert HM HF A2 A3 A4 A7.
  generalize (animate (beforeFirstFrame rnd ow oh dpr)).
  intros a (M1 & M2 & M3 & M4 & M5) HF A2 A3 A4 A7.
  destruct a. unfold Mounted, framesPainted in *. world_fields.
  repeat split; assumption.
Qed.

Lemma effect_blankPage_state (c d : bool) (ow oh : R) (dpr : option R) :
  Mounted (effect rnd (blankPage c d ow oh dpr)) \/
  Idle (effect rnd (blankPage c d ow oh dpr)).
Proof.
  destruct c, d; [left; apply effect_blankPage | right ..];
    (rewrite effect_absent; [split; reflexivity|]); auto.
Qed.

End Mounting.

Lemma frames_painted (n : nat) (w : World) :
  Mounted w ->
  framesPainted (run w (repeat Frame n)) = (framesPainted w + n)%nat.
Proof.
  revert w. induction n as [|n IH]; intros w HM.
  - cbn. lia.
  - cbn [repeat]. change (run w (Frame :: repeat Frame n))
      with (run (step w Frame) (repeat Frame n)).
    rewrite IH by (apply step_Mounted; exact HM).
    destruct HM as (Hctx & Hq & _).
    rewrite (step_Frame_pending w Hq), animate_framesPainted
      by (destruct w; exact Hctx).
    destruct w. unfold framesPainted. world_fields. lia.
Qed.

(** C1: what the code does.  After the effect has run on a page with a
    canvas and a context and its cleanup has been called, the resize
    listener is gone and a second call changes nothing; but the frame
    requested on line 106 is still pending, every later frame runs the
    callback (it advances and paints the orbs) and requests the next one,
    so n frames after the cleanup n more frames have been painted. *)
Theorem frames_run_after_dispose (rnd : nat -> R) (ow oh : R)
    (dpr : option R) (n : nat) :
  let mounted := effect rnd (blankPage true true ow oh dpr) in
  let disposed := step mounted Unmount in
  resizeListeners mounted = [SetCanvasSize] /\
  resizeListeners disposed = [] /\
  step disposed Unmount = disposed /\
  frameRequests disposed = [Animate] /\
  orbs (step disposed Frame) = map (updateOrb ow oh) (orbs disposed) /\
  frameRequests (run disposed (repeat Frame n)) = [Animate] /\
  framesPainted (run disposed (repeat Frame n))
    = (framesPainted disposed + n)%nat.
Proof.
  intros mounted disposed.
  destruct (effect_blankPage rnd ow oh dpr)
    as (HM & Hcl & Hls & Hw & Hh & _ & _).
  fold mounted in HM, Hcl, Hls, Hw, Hh.
  assert (Hd : disposed = dispose mounted).
  { unfold disposed. cbn [step]. now rewrite Hcl. }
  assert (HMd : Mounted disposed) by (apply step_Mounted; exact HM).
  destruct (dispose_fields mounted) as (_ & Dw & Dh & _ & Do & Dc & _).
  split; [exact Hls|]. split; [|split; [|split; [|split; [|split]]]].
  - rewrite Hd. unfold dispose, removeEventListener.
    destruct mounted. world_fields. now subst.
  - cbn [step]. rewrite Hd at 1. rewrite Dc, Hcl.
    rewrite Hd. apply dispose_idempotent.
  - apply HMd.
  - destruct HMd as (Hctx & Hq & _).
    rewrite (step_Frame_pending disposed Hq).
    destruct (animate_fields (set_frameRequests disposed []))
      as (_ & _ & _ & _ & _ & _ & A7 & _); [destruct disposed; exact Hctx|].
    rewrite A7. rewrite Hd at 1 2 3. rewrite <- Hw, <- Hh, <- Dw, <- Dh.
    rewrite <- Hd. destruct disposed. reflexivity.
  - apply (run_Mounted (repeat Frame n) disposed HMd).
  - apply frames_painted. exact HMd.
Qed.

(** C9: when the canvas or its 2D context is missing, the effect returns
    at once and leaves the page as it found it: on a page on which nothing
    was mounted there is then no orb, no listener, no pending frame, no
    call on a context and no cleanup, and no later event creates one. *)
Theorem effect_without_surface (rnd : nat -> R) (w : World) :
  canvasRef w = false \/ context2d w = false ->
  effect rnd w = w /\
  (forall (ow oh : R) (dpr : option R) (es : list Event),
      w = blankPage (canvasRef w) (context2d w) ow oh dpr ->
      orbs (effect rnd w) = [] /\
      resizeListeners (effect rnd w) = [] /\
      frameRequests (effect rnd w) = [] /\
      calls (effect rnd w) = [] /\
      cleanup (effect rnd w) = false /\
      orbs (run (effect rnd w) es) = [] /\
      frameRequests (run (effect rnd w) es) = []).
Proof.
  intros H. rewrite (effect_absent rnd w H). split; [reflexivity|].
  intros ow oh dpr es E.
  assert (HI : Idle w) by (rewrite E; split; reflexivity).
  destruct (run_Idle es w HI) as (R1 & R2).
  rewrite E at 1 2 3 4 5. repeat split; assumption.
Qed.

Lemma effect_without_surface_witness :
  effect zeros (blankPage false true 800 600 None)
  = blankPage false true 800 600 None.
Proof.
  apply (effect_without_surface zeros (blankPage false true 800 600 None)).
  left. reflexivity.
Defined.

(** ** Invariants of the running animation *)

(** C5: the radius a tick computes is baseRadius + 30 sin(phase), with the
    phase the tick has just advanced, and lies in [baseRadius - 30,
    baseRadius + 30]; a tick leaves baseRadius as it was; and whatever the
    host does after mounting (frames, resizes, unmounting), every orb has
    its radius in that range and the base radii are still the palette's. *)
Theorem radius_in_range :
  (forall (width height : R) (orb : Orb),
      let orb' := updateOrb width height orb in
      radius orb' = baseRadius orb' + sin (phase orb') * 30 /\
      baseRadius orb' - 30 <= radius orb' <= baseRadius orb' + 30 /\
      baseRadius orb' = baseRadius orb) /\
  (forall (rnd : nat -> R) (c d : bool) (ow oh : R) (dpr : option R)
          (es : list Event),
      let w := run (effect rnd (blankPage c d ow oh dpr)) es in
      Forall radiusInRange (orbs w) /\
      (orbs w = [] \/ map baseRadius (orbs w) = map snd palette)).
Proof.
  split.
  - intros width height orb orb'. split; [|split].
    + unfold orb', updateOrb. now rewrite wrapOrb_eq.
    + apply (updateOrb_radiusInRange width height orb).
    + apply updateOrb_baseRadius.
  - intros rnd c d ow oh dpr es w.
    destruct (effect_blankPage_state rnd c d ow oh dpr) as [HM | HI].
    + destruct (run_Mounted es _ HM) as (_ & _ & Hb & _ & Hr).
      split; [exact Hr | right; exact Hb].
    + destruct (run_Idle es _ HI) as (Ho & _).
      unfold w. rewrite Ho. split; [constructor | left; reflexivity].
Qed.

Lemma frame_inBounds (w : World) :
  Mounted w -> sizeNonneg w ->
  Forall (inBounds (offsetWidth (step w Frame)) (offsetHeight (step w Frame)))
         (orbs (step w Frame)).
Proof.
  intros (Hctx & Hq & Hb & _) (Hw & Hh).
  rewrite (step_Frame_pending w Hq).
  destruct (animate_fields (set_frameRequests w []))
    as (_ & A2 & A3 & _ & _ & _ & A7 & _); [destruct w; exact Hctx|].
  rewrite A2, A3, A7.
  destruct (set_frameRequests_fields w []) as (_ & F2 & F3 & F4).
  rewrite F2, F3, F4.
  apply Forall_map.
  pose proof (palette_baseRadius (orbs w) Hb) as Hpal.
  apply Forall_forall. intros o Hin.
  rewrite Forall_forall in Hpal.
  apply updateOrb_inBounds; auto.
Qed.

(** C4: on a surface whose width and height are never negative, after the
    frame the effect paints while mounting and after every later frame,
    whatever resizes, frames and unmounting came before, every orb has
    -radius <= x <= width + radius and -radius <= y <= height + radius for
    its radius after the pulse and the surface size of that frame; the same
    holds for one tick of any orb whose radius after the pulse is not
    negative. *)
Theorem orbs_stay_in_bounds (rnd : nat -> R) (c d : bool) (ow oh : R)
    (dpr : option R) (es : list Event) :
  0 <= ow -> 0 <= oh -> Forall sizesNonneg es ->
  Forall (inBounds ow oh) (orbs (effect rnd (blankPage c d ow oh dpr))) /\
  (let w := step (run (effect rnd (blankPage c d ow oh dpr)) es) Frame in
   Forall (inBounds (offsetWidth w) (offsetHeight w)) (orbs w)) /\
  (forall (width height : R) (orb : Orb),
      0 <= width -> 0 <= height -> 0 <= radius (moveOrb orb) ->
      inBounds width height (updateOrb width height orb)).
Proof.
  intros Hw Hh Hes. split; [|split].
  - destruct c, d;
      try (rewrite effect_absent; [constructor | solve [auto]]).
    destruct (effect_blankPage rnd ow oh dpr)
      as (_ & _ & _ & _ & _ & Eo & _).
    rewrite Eo. apply Forall_map.
    destruct (createOrbs_shape rnd ow oh palette 0) as (_ & Hb & _).
    pose proof (palette_baseRadius _ Hb) as Hpal.
    rewrite Forall_forall in Hpal.
    apply Forall_forall. intros o Hin. apply updateOrb_inBounds; auto.
  - cbv zeta.
    assert (Hs : sizeNonneg (effect rnd (blankPage c d ow oh dpr))).
    { destruct c, d;
        try (rewrite effect_absent; [split; assumption | solve [auto]]).
      destruct (effect_blankPage rnd ow oh dpr)
        as (_ & _ & _ & E1 & E2 & _).
      unfold sizeNonneg. rewrite E1, E2. split; assumption. }
    destruct (run_sizeNonneg es _ (effect_blankPage_state rnd c d ow oh dpr)
                Hes Hs) as (Hs' & [HM | HI]).
    + apply frame_inBounds; assumption.
    + destruct HI as (Ho & Hq).
      rewrite (step_Frame_empty _ Hq), Ho. constructor.
  - intros width height orb Hwd Hht Hr. unfold updateOrb.
    apply wrapOrb_inBounds; lra.
Qed.

Lemma orbs_stay_in_bounds_witness :
  let w :=
    step (run (effect halves examplePage) [Resize 400 300 None; Frame])
         Frame in
  Forall (inBounds (offsetWidth w) (offsetHeight w)) (orbs w).
Proof.
  apply (orbs_stay_in_bounds halves true true 800 600 (Some 2)
           [Resize 400 300 None; Frame]).
  - lra.
  - lra.
  - repeat constructor; cbn [sizesNonneg]; lra.
Defined.

(** * Further properties of the effect *)

(** ** The replacement of line 88 on any colour *)

Section RegexCases.

Local Open Scope string_scope.

Lemma matchesTail_empty (seen : bool) : matchesTail seen "" = false.
Proof. reflexivity. Qed.

(** A match is a numeral followed by the closing parenthesis that ends the
    string. *)
Lemma matchesTail_true_inv (s : string) (seen : bool) :
  matchesTail seen s = true ->
  exists alpha, s = alpha ++ ")" /\ allDigitOrDot alpha = true /\
                (seen = true \/ alpha <> "").
Proof.
  revert seen. induction s as [|c s IH]; intros seen H; [discriminate|].
  cbn [matchesTail] in H. destruct (isDigitOrDot c) eqn:Hc.
  - destruct (IH true H) as (alpha & E & Ha & _).
    exists (String c alpha). cbn [append allDigitOrDot].
    rewrite E, Hc, Ha. repeat split. right. discriminate.
  - destruct (isCloseParen c) eqn:Hp; [|discriminate].
    apply andb_prop in H as [Hs Hr]. destruct s; [|discriminate].
    exists "". cbn [append]. repeat split; [|left; exact Hs].
    unfold isCloseParen in Hp. apply Nat.eqb_eq in Hp.
    f_equal. rewrite <- (ascii_nat_embedding c), Hp. reflexivity.
Qed.

Lemma matchesTail_ends (s : string) (seen : bool) :
  matchesTail seen s = true -> endsWithCloseParen s = true.
Proof.
  revert seen. induction s as [|c s IH]; intros seen H; [discriminate|].
  cbn [matchesTail] in H. destruct (isDigitOrDot c).
  - pose proof (IH true H) as He.
    destruct s; [discriminate | exact He].
  - destruct (isCloseParen c) eqn:Hp; [|discriminate].
    apply andb_prop in H as [_ Hr]. destruct s; [exact Hp | discriminate].
Qed.

Lemma replaceAlpha_no_paren (s : string) :
  endsWithCloseParen s = false -> replaceAlpha s = s.
Proof.
  induction s as [|c s IH]; intros H; [reflexivity|].
  rewrite replaceAlpha_unfold.
  destruct (matchesHere (String c s)) eqn:Hm.
  - apply matchesTail_ends in Hm. congruence.
  - f_equal. destruct s; [reflexivity | apply IH; exact H].
Qed.

(** The two outcomes of the replacement. *)
Lemma replaceAlpha_cases (s : string) :
  replaceAlpha s = s \/
  exists pre alpha,
    s = pre ++ alpha ++ ")" /\ alpha <> "" /\
    allDigitOrDot alpha = true /\ endsOutsideNumeral pre = true /\
    replaceAlpha s = pre ++ "0.05)".
Proof.
  induction s as [|c s IH]; [left; reflexivity|].
  destruct (matchesHere (String c s)) eqn:Hm.
  - right. destruct (matchesTail_true_inv _ _ Hm) as (alpha & E & Ha & Hn).
    destruct Hn as [Hn | Hn]; [discriminate|].
    exists "", alpha. cbn [append]. repeat split; try assumption.
    rewrite replaceAlpha_unfold, Hm. reflexivity.
  - destruct IH as [IH | (pre & alpha & E & Hn & Ha & Hp & Hr)].
    + left. rewrite replaceAlpha_unfold, Hm. now rewrite IH.
    + right. exists (String c pre), alpha. cbn [append].
      repeat split; try assumption.
      * now rewrite E.
      * destruct pre as [|c' pre']; [|exact Hp].
        cbn [endsOutsideNumeral]. destruct (isDigitOrDot c) eqn:Hc;
          [|reflexivity].
        exfalso. unfold matchesHere in Hm. cbn [matchesTail] in Hm.
        rewrite Hc, E in Hm. cbn [append] in Hm.
        rewrite (matchesTail_numeral alpha true Ha) in Hm. discriminate.
      * rewrite replaceAlpha_unfold, Hm. now rewrite Hr.
Qed.

End RegexCases.

(** X1: whatever the colour string, the replacement of line 88 either
    leaves it as it is or finds it to be a prefix that does not end inside
    a numeral, a non-empty numeral and a closing parenthesis, and returns
    the prefix followed by 0.05 and the parenthesis: nothing before the
    last numeral is ever touched. *)
Theorem replaceAlpha_outcomes (s : string) :
  replaceAlpha s = s \/
  exists pre alpha : string,
    s = (pre ++ alpha ++ ")")%string /\ alpha <> ""%string /\
    allDigitOrDot alpha = true /\ endsOutsideNumeral pre = true /\
    replaceAlpha s = (pre ++ "0.05)")%string.
Proof. exact (replaceAlpha_cases s). Qed.

(** X2: replacing twice is replacing once: the string the replacement
    returns is left alone by a second replacement. *)
Theorem replaceAlpha_idempotent (s : string) :
  replaceAlpha (replaceAlpha s) = replaceAlpha s.
Proof.
  destruct (replaceAlpha_cases s) as [E | (pre & alpha & _ & _ & _ & Hp & E)].
  - now rewrite E.
  - rewrite E.
    apply (replaceAlpha_numeral pre "0.05"); [discriminate | reflexivity |].
    exact Hp.
Qed.

(** X3: for an orb whose colour does not end in a closing parenthesis (a
    hexadecimal or a named colour), the mid stop of the gradient is the
    orb's colour unchanged, as opaque as the centre. *)
Theorem gradient_mid_stop_without_alpha (orb : Orb) :
  endsWithCloseParen (color orb) = false ->
  stops (gradientOf orb)
  = [ (0, color orb); (0.5, color orb); (1, "transparent"%string) ].
Proof.
  intros H. rewrite gradientOf_stops.
  now rewrite (replaceAlpha_no_paren (color orb) H).
Qed.

Lemma gradient_mid_stop_without_alpha_witness :
  stops (gradientOf (mkOrb 0 0 280 280 "#8b5cf6" 0 0 0 0))
  = [ (0, "#8b5cf6"%string); (0.5, "#8b5cf6"%string);
      (1, "transparent"%string) ].
Proof.
  apply (gradient_mid_stop_without_alpha (mkOrb 0 0 280 280 "#8b5cf6" 0 0 0 0)).
  reflexivity.
Defined.

(** ** More on the wraparound *)

Lemma wrapAxis_fixed (extent r c : R) :
  0 <= extent + 2 * r ->
  (wrapAxis extent r c = c <-> - r <= c <= extent + r).
Proof.
  intros H. split.
  - intros E. rewrite <- E. apply wrapAxis_bounds. exact H.
  - intros [Hlo Hhi]. apply wrapAxis_inside; lra.
Qed.

(** X4: when the two bounds of each axis are in order (width + 2 radius
    and height + 2 radius not negative), the orbs the wraparound leaves
    exactly as they are are the orbs inside the bounds. *)
Theorem wrapOrb_fixed_points (width height : R) (orb : Orb) :
  0 <= width + 2 * radius orb ->
  0 <= height + 2 * radius orb ->
  (wrapOrb width height orb = orb <-> inBounds width height orb).
Proof.
  intros Hw Hh. rewrite wrapOrb_eq. unfold inBounds. split.
  - intros E.
    assert (Ex : wrapAxis width (radius orb) (x orb) = x orb)
      by (apply (f_equal x) in E; exact E).
    assert (Ey : wrapAxis height (radius orb) (y orb) = y orb)
      by (apply (f_equal y) in E; exact E).
    split; [apply (wrapAxis_fixed width _ _ Hw) | 
            apply (wrapAxis_fixed height _ _ Hh)]; assumption.
  - intros [Hx Hy].
    rewrite (proj2 (wrapAxis_fixed width _ _ Hw) Hx).
    rewrite (proj2 (wrapAxis_fixed height _ _ Hh) Hy).
    destruct orb. reflexivity.
Qed.

Lemma wrapOrb_fixed_points_witness :
  wrapOrb 800 600 exampleOrb = exampleOrb <-> inBounds 800 600 exampleOrb.
Proof.
  apply (wrapOrb_fixed_points 800 600 exampleOrb);
    unfold exampleOrb; cbn [radius]; lra.
Defined.




(** ** The draws [createOrbs] reads *)

Lemma createOrbs_ext (width height : R) (entries : list (string * R))
    (rnd rnd' : nat -> R) (start : nat) :
  (forall i, (start <= i < start + 6 * List.length entries)%nat ->
             rnd i = rnd' i) ->
  createOrbs width height entries rnd start
  = createOrbs width height entries rnd' start.
Proof.
  revert start. induction entries as [|[c b] rest IH]; intros start H.
  - reflexivity.
  - rewrite !createOrbs_cons, !createOrb_run. cbn [fst].
    cbn [List.length] in H.
    rewrite (IH (6 + start)%nat) by (intros i Hi; apply H; lia).
    rewrite (H start), (H (1 + start)%nat), (H (2 + start)%nat),
            (H (3 + start)%nat), (H (4 + start)%nat), (H (5 + start)%nat)
      by lia.
    reflexivity.
Qed.

(** X6: creating the six orbs calls the random source exactly 36 times,
    and the orbs depend on those 36 draws only: two sources that agree on
    their first 36 values give the same orbs. *)
Theorem createOrbs_reads_36_draws (width height : R) (rnd rnd' : nat -> R) :
  (forall i, (i < 36)%nat -> rnd i = rnd' i) ->
  snd (createOrbs width height palette rnd 0%nat) = 36%nat /\
  createOrbs width height palette rnd 0%nat
  = createOrbs width height palette rnd' 0%nat.
Proof.
  intros H. split.
  - destruct (createOrbs_shape rnd width height palette 0) as (_ & _ & E).
    rewrite E. reflexivity.
  - apply createOrbs_ext. intros i Hi. apply H.
    unfold palette in Hi. cbn [List.length] in Hi. lia.
Qed.

Lemma createOrbs_reads_36_draws_witness :
  createOrbs 800 600 palette zeros 0%nat
  = createOrbs 800 600 palette (fun i => if (i <? 36)%nat then 0 else 1) 0%nat.
Proof.
  apply (createOrbs_reads_36_draws 800 600 zeros
           (fun i => if (i <? 36)%nat then 0 else 1)).
  intros i Hi. apply Nat.ltb_lt in Hi. rewrite Hi. reflexivity.
Defined.

(** ** The orbs over the life of the animation *)

Section Evolution.

Lemma Forall2_map_self {A B : Type} (R : A -> B -> Prop) (f : A -> B)
    (l : list A) :
  (forall a, In a l -> R a (f a)) -> Forall2 R l (map f l).
Proof.
  induction l as [|a l IH]; intros H; [constructor|].
  cbn [map]. constructor; [apply H; left; reflexivity|].
  apply IH. intros b Hb. apply H. right. exact Hb.
Qed.

Lemma Forall2_map_right {A B : Type} (R R' : A -> B -> Prop) (f : B -> B)
    (l : list A) (l' : list B) :
  (forall a b, R a b -> R' a (f b)) ->
  Forall2 R l l' -> Forall2 R' l (map f l').
Proof.
  intros H F. induction F as [|a b l l' Hab F IH]; [constructor|].
  cbn [map]. constructor; [apply H; exact Hab | exact IH].
Qed.

Lemma updateOrb_phase (width height : R) (o : Orb) :
  phase (updateOrb width height o) = phase o + pulseSpeed o /\
  vx (updateOrb width height o) = vx o /\
  vy (updateOrb width height o) = vy o /\
  pulseSpeed (updateOrb width height o) = pulseSpeed o /\
  radius (updateOrb width height o)
    = baseRadius o + sin (phase (updateOrb width height o)) * 30.
Proof.
  unfold updateOrb. rewrite wrapOrb_eq.
  cbn [vx vy pulseSpeed phase radius].
  destruct (moveOrb_fields o) as (_ & _ & Ep & Er & _ & _ & Ev & Ew & Es).
  rewrite Ep, Er, Ev, Ew, Es. repeat split.
Qed.

Lemma evolved_first (width height : R) (c : Orb) :
  evolved 1 c (updateOrb width height c).
Proof.
  unfold evolved.
  destruct (updateOrb_phase width height c) as (Ep & Ev & Ew & Es & Er).
  rewrite updateOrb_color, updateOrb_baseRadius, Ep, Ev, Ew, Es, Er, Ep.
  repeat split.
Qed.

Lemma evolved_tick (width height : R) (n : nat) (c o : Orb) :
  evolved n c o -> evolved (S n) c (updateOrb width height o).
Proof.
  intros (Hc & Hb & Hv & Hw & Hs & Hp & _). unfold evolved.
  destruct (updateOrb_phase width height o) as (Ep & Ev & Ew & Es & Er).
  rewrite updateOrb_color, updateOrb_baseRadius, Er, Ep, Ev, Ew, Es.
  rewrite Hc, Hb, Hv, Hw, Hs, Hp.
  repeat split.
Qed.

Lemma scale_no_clear (r : R) (k : nat) :
  filter isClearRect (repeat (Scale r r) k) = [].
Proof. induction k as [|k IH]; [reflexivity | exact IH]. Qed.

Lemma step_framesPainted (w : World) (e : Event) :
  Mounted w ->
  framesPainted (step w e)
  = (framesPainted w + if isFrame e then 1 else 0)%nat.
Proof.
  intros (Hctx & Hq & _). destruct e as [ow oh dpr| |]; cbn [isFrame].
  - destruct (step_Resize_fields w ow oh dpr)
      as (_ & _ & _ & _ & _ & _ & _ & _ & _ & Ec).
    unfold framesPainted. rewrite Ec, filter_app, scale_no_clear, app_nil_r.
    lia.
  - rewrite (step_Frame_pending w Hq).
    rewrite animate_framesPainted by (destruct w; exact Hctx).
    unfold framesPainted. destruct w. world_fields. lia.
  - cbn [step]. destruct (cleanup w); [|lia].
    destruct (dispose_fields w) as (_ & _ & _ & _ & _ & _ & Ec & _).
    unfold framesPainted. rewrite Ec. lia.
Qed.

Lemma step_evolved (cs : list Orb) (w : World) (e : Event) :
  Mounted w ->
  Forall2 (evolved (framesPainted w)) cs (orbs w) ->
  Forall2 (evolved (framesPainted (step w e))) cs (orbs (step w e)).
Proof.
  intros HM F. rewrite (step_framesPainted w e HM).
  destruct HM as (Hctx & Hq & _).
  destruct e as [ow oh dpr| |]; cbn [isFrame].
  - destruct (step_Resize_fields w ow oh dpr)
      as (_ & _ & _ & _ & _ & _ & _ & Eo & _).
    rewrite Eo, Nat.add_0_r. exact F.
  - rewrite (step_Frame_pending w Hq).
    destruct (animate_fields (set_frameRequests w []))
      as (_ & _ & _ & _ & _ & _ & A7 & _); [destruct w; exact Hctx|].
    destruct (set_frameRequests_fields w []) as (_ & _ & _ & F4).
    rewrite A7, F4. replace (framesPainted w + 1)%nat
      with (S (framesPainted w)) by lia.
    apply (Forall2_map_right (evolved (framesPainted w))); [|exact F].
    intros a b Hab. apply evolved_tick. exact Hab.
  - cbn [step]. rewrite Nat.add_0_r. destruct (cleanup w); [|exact F].
    destruct (dispose_fields w) as (_ & _ & _ & _ & Eo & _).
    rewrite Eo. exact F.
Qed.

Lemma run_evolved (cs : list Orb) (es : list Event) (w : World) :
  Mounted w ->
  Forall2 (evolved (framesPainted w)) cs (orbs w) ->
  Forall2 (evolved (framesPainted (run w es))) cs (orbs (run w es)) /\
  framesPainted (run w es)
  = (framesPainted w + List.length (filter isFrame es))%nat.
Proof.
  revert w. induction es as [|e es IH]; intros w HM F.
  - cbn. split; [exact F | lia].
  - change (run w (e :: es)) with (run (step w e) es).
    destruct (IH (step w e) (step_Mounted w e HM) (step_evolved cs w e HM F))
      as (F' & En).
    split; [exact F'|].
    rewrite En, (step_framesPainted w e HM). cbn [filter].
    destruct (isFrame e); cbn [List.length]; lia.
Qed.

(** Every orb of the animation against the orb it was created as. *)
Lemma reachable_evolved (rnd : nat -> R) (ow oh : R) (dpr : option R)
    (es : list Event) :
  let w := run (effect rnd (blankPage true true ow oh dpr)) es in
  Forall2 (evolved (framesPainted w))
          (fst (createOrbs ow oh palette rnd 0%nat)) (orbs w) /\
  framesPainted w = S (List.length (filter isFrame es)).
Proof.
  cbv zeta.
  destruct (effect_blankPage rnd ow oh dpr)
    as (HM & _ & _ & _ & _ & Eo & En).
  assert (F : Forall2 (evolved
                 (framesPainted (effect rnd (blankPage true true ow oh dpr))))
                (fst (createOrbs ow oh palette rnd 0%nat))
                (orbs (effect rnd (blankPage true true ow oh dpr)))).
  { rewrite En, Eo. apply Forall2_map_self.
    intros c _. apply evolved_first. }
  destruct (run_evolved _ es _ HM F) as (F' & E').
  split; [exact F'|]. rewrite E', En. reflexivity.
Qed.

End Evolution.

(** X7: whatever the host does after mounting (frames, resizes,
    unmounting), the animation holds six orbs, in the order they were
    created, and each still has the colour, base radius, velocity and pulse
    speed it was created with: only position, phase and radius ever
    change. *)
Theorem orbs_keep_creation_values (rnd : nat -> R) (ow oh : R)
    (dpr : option R) (es : list Event) :
  let created := fst (createOrbs ow oh palette rnd 0%nat) in
  let w := run (effect rnd (blankPage true true ow oh dpr)) es in
  List.length (orbs w) = 6%nat /\
  Forall2 (fun c o =>
             color o = color c /\ baseRadius o = baseRadius c /\
             vx o = vx c /\ vy o = vy c /\ pulseSpeed o = pulseSpeed c)
          created (orbs w).
Proof.
  intros created w.
  destruct (reachable_evolved rnd ow oh dpr es) as (F & _).
  fold created in F. fold w in F. split.
  - rewrite <- (Forall2_length F). unfold created.
    destruct (createOrbs_shape rnd ow oh palette 0) as (Hc & _).
    rewrite <- (length_map color), Hc. reflexivity.
  - revert F. apply Forall2_impl.
    intros c o (H1 & H2 & H3 & H4 & H5 & _). repeat split; assumption.
Qed.

(** X8: the effect paints one frame while mounting and one more for each
    frame the host delivers afterwards, and every painted frame advances
    every orb once: after any events, each orb's phase is its created phase
    with its pulse speed added once per painted frame, one addition after
    the other, and its radius is baseRadius + 30 sin(phase) at that
    phase. *)
Theorem phase_counts_frames (rnd : nat -> R) (ow oh : R)
    (dpr : option R) (es : list Event) :
  let created := fst (createOrbs ow oh palette rnd 0%nat) in
  let w := run (effect rnd (blankPage true true ow oh dpr)) es in
  framesPainted w = S (List.length (filter isFrame es)) /\
  Forall2 (fun c o =>
             phase o
               = Nat.iter (framesPainted w) (fun p => p + pulseSpeed o)
                          (phase c) /\
             radius o = baseRadius o + sin (phase o) * 30)
          created (orbs w).
Proof.
  intros created w.
  destruct (reachable_evolved rnd ow oh dpr es) as (F & En).
  fold created in F. fold w in F, En. split; [exact En|].
  revert F. apply Forall2_impl.
  intros c o (_ & H2 & _ & _ & H5 & Hp & Hr).
  split; [rewrite H5; exact Hp|]. rewrite Hr, H2. reflexivity.
Qed.

(** ** The resize listener over the life of the animation *)

Section Listener.

Lemma run_app (w : World) (es es' : list Event) :
  run w (es ++ es') = run (run w es) es'.
Proof. unfold run. apply fold_left_app. Qed.


Lemma pixelRatio_cases (w : World) :
  (devicePixelRatio w = None \/ devicePixelRatio w = Some 0 ->
   pixelRatio w = 1) /\
  (forall d, devicePixelRatio w = Some d -> d <> 0 -> pixelRatio w = d).
Proof.
  unfold pixelRatio. split.
  - intros [E | E]; rewrite E; [reflexivity|].
    destruct (Req_dec_T 0 0); [reflexivity | lra].
  - intros d E Hd. rewrite E.
    destruct (Req_dec_T d 0); [contradiction | reflexivity].
Qed.

(** What a resize does to the canvas, by the number of times
    [setCanvasSize] is registered. *)
Lemma step_Resize_canvas (w : World) (ow oh : R) (dpr : option R) :
  let w' := step w (Resize ow oh dpr) in
  canvasWidth w'
    = (if (countSetCanvasSize (resizeListeners w) =? 0)%nat
       then canvasWidth w else canvasAttribute 300 (ow * pixelRatio w')) /\
  canvasHeight w'
    = (if (countSetCanvasSize (resizeListeners w) =? 0)%nat
       then canvasHeight w else canvasAttribute 150 (oh * pixelRatio w')).
Proof.
  cbn [step]. cbv zeta. rewrite runListeners_spec.
  destruct w. world_fields. unfold pixelRatio. world_fields.
  split; reflexivity.
Qed.

Lemma step_keeps_listener (w : World) (e : Event) :
  Mounted w -> e <> Unmount ->
  resizeListeners (step w e) = resizeListeners w /\
  cleanup (step w e) = cleanup w.
Proof.
  intros (Hctx & Hq & _) He. destruct e as [ow oh dpr| |].
  - destruct (step_Resize_fields w ow oh dpr)
      as (_ & _ & _ & _ & _ & E1 & _ & _ & E2 & _).
    split; assumption.
  - rewrite (step_Frame_pending w Hq).
    destruct (animate_fields (set_frameRequests w []))
      as (_ & _ & _ & A4 & A5 & _); [destruct w; exact Hctx|].
    rewrite A4, A5. destruct w. split; reflexivity.
  - contradiction.
Qed.

Lemma run_keeps_listener (es : list Event) (w : World) :
  Mounted w -> ~ In Unmount es ->
  resizeListeners (run w es) = resizeListeners w /\
  cleanup (run w es) = cleanup w.
Proof.
  revert w. induction es as [|e es IH]; intros w HM Hn.
  - split; reflexivity.
  - change (run w (e :: es)) with (run (step w e) es).
    assert (He : e <> Unmount) by (intros ->; apply Hn; left; reflexivity).
    destruct (step_keeps_listener w e HM He) as (E1 & E2).
    destruct (IH (step w e) (step_Mounted w e HM)) as (E3 & E4).
    { intros Hin. apply Hn. right. exact Hin. }
    rewrite E3, E4. split; assumption.
Qed.

Lemma step_listener_gone (w : World) (e : Event) :
  Mounted w -> ~ In SetCanvasSize (resizeListeners w) ->
  ~ In SetCanvasSize (resizeListeners (step w e)).
Proof.
  intros HM Hn. destruct e as [ow oh dpr| |].
  - destruct (step_Resize_fields w ow oh dpr)
      as (_ & _ & _ & _ & _ & E1 & _).
    rewrite E1. exact Hn.
  - destruct (step_keeps_listener w Frame HM) as (E1 & _); [discriminate|].
    rewrite E1. exact Hn.
  - cbn [step]. destruct (cleanup w); [|exact Hn].
    apply dispose_fields.
Qed.

Lemma run_listener_gone (es : list Event) (w : World) :
  Mounted w -> ~ In SetCanvasSize (resizeListeners w) ->
  ~ In SetCanvasSize (resizeListeners (run w es)).
Proof.
  revert w. induction es as [|e es IH]; intros w HM Hn; [exact Hn|].
  change (run w (e :: es)) with (run (step w e) es).
  apply IH; [apply step_Mounted; exact HM|].
  apply step_listener_gone; assumption.
Qed.

Lemma count_absent (ls : list Listener) :
  ~ In SetCanvasSize ls -> countSetCanvasSize ls = 0%nat.
Proof.
  unfold countSetCanvasSize. induction ls as [|l ls IH]; intros H;
    [reflexivity|].
  cbn [filter]. destruct l as [|id].
  - exfalso. apply H. left. reflexivity.
  - cbn [listener_eqb]. apply IH. intros Hin. apply H. right. exact Hin.
Qed.

Lemma mounted_listener (rnd : nat -> R) (ow oh : R) (dpr : option R)
    (es : list Event) :
  let w := run (effect rnd (blankPage true true ow oh dpr)) es in
  (~ In Unmount es -> resizeListeners w = [SetCanvasSize]) /\
  (In Unmount es -> ~ In SetCanvasSize (resizeListeners w)).
Proof.
  cbv zeta.
  destruct (effect_blankPage rnd ow oh dpr) as (HM & Hc & Hl & _).
  split.
  - intros Hn. destruct (run_keeps_listener es _ HM Hn) as (E & _).
    rewrite E. exact Hl.
  - intros Hin. apply in_split in Hin as (l1 & l2 & E). subst es.
    rewrite run_app.
    change (run (run (effect rnd (blankPage true true ow oh dpr)) l1)
                (Unmount :: l2))
      with (run (step (run (effect rnd (blankPage true true ow oh dpr)) l1)
                      Unmount) l2).
    pose proof (run_Mounted l1 _ HM) as HM1.
    apply run_listener_gone; [apply step_Mounted; exact HM1|].
    cbn [step].
    destruct (cleanup (run (effect rnd (blankPage true true ow oh dpr)) l1))
      eqn:Hcl.
    + apply dispose_fields.
    + (* the cleanup flag is set by the effect and never cleared *)
      exfalso.
      assert (G : forall es' w0, Mounted w0 -> cleanup w0 = true ->
                    cleanup (run w0 es') = true).
      { induction es' as [|e es' IH]; intros w0 HM0 H0; [exact H0|].
        change (run w0 (e :: es')) with (run (step w0 e) es').
        apply IH; [apply step_Mounted; exact HM0|].
        destruct e as [ow' oh' dpr'| |].
        - destruct (step_keeps_listener w0 (Resize ow' oh' dpr') HM0)
            as (_ & E2); [discriminate|]. now rewrite E2.
        - destruct (step_keeps_listener w0 Frame HM0) as (_ & E2);
            [discriminate|]. now rewrite E2.
        - cbn [step]. rewrite H0.
          destruct (dispose_fields w0) as (_ & _ & _ & _ & _ & E2 & _).
          now rewrite E2. }
      rewrite (G l1 _ HM Hc) in Hcl. discriminate.
Qed.

End Listener.

Lemma canvasAttribute_in_range (default : Z) (v : R) :
  0 <= v < 2147483648 ->
  canvasAttribute default v = IZR (Int_part v) /\
  IZR (Int_part v) <= v < IZR (Int_part v) + 1.
Proof.
  intros [Hlo Hhi]. destruct (base_Int_part v) as [Hle Hgt].
  split; [|lra].
  unfold canvasAttribute, toUnsignedLong, integerPart.
  destruct (Rle_dec 0 v) as [_ | Hn]; [|contradiction].
  assert (H0 : (0 <= Int_part v)%Z).
  { apply Z.lt_succ_r, Z.lt_pred_lt_succ. apply lt_IZR.
    change (Z.pred 0) with (-1)%Z. lra. }
  assert (H1 : (Int_part v < 2147483648)%Z) by (apply lt_IZR; lra).
  cbv zeta. rewrite Z.mod_small by (split; [exact H0 | lia]).
  destruct (Int_part v <=? 2147483647)%Z eqn:E; [reflexivity|].
  apply Z.leb_gt in E. lia.
Qed.

(** A layout width of 801 at a pixel ratio of 1.25 gives the canvas the
    width 1001, not 1001.25. *)
Lemma canvasAttribute_fraction : canvasAttribute 300 (801 * 1.25) = 1001.
Proof.
  destruct (canvasAttribute_in_range 300 (801 * 1.25)) as (E & _); [lra|].
  rewrite E. f_equal. symmetry. apply Int_part_spec. lra.
Qed.



(** X10: once the cleanup has run, a resize still changes the layout size
    the frames wrap against, but the canvas width and height attributes
    and the context are no longer touched. *)
Theorem resize_after_unmount (rnd : nat -> R) (ow0 oh0 : R)
    (dpr0 : option R) (es : list Event) (ow oh : R) (dpr : option R) :
  In Unmount es ->
  let w := run (effect rnd (blankPage true true ow0 oh0 dpr0)) es in
  let w' := step w (Resize ow oh dpr) in
  canvasWidth w' = canvasWidth w /\
  canvasHeight w' = canvasHeight w /\
  calls w' = calls w /\
  offsetWidth w' = ow /\ offsetHeight w' = oh.
Proof.
  intros Hin w w'.
  destruct (mounted_listener rnd ow0 oh0 dpr0 es) as (_ & Hl).
  specialize (Hl Hin). fold w in Hl. apply count_absent in Hl.
  destruct (step_Resize_canvas w ow oh dpr) as (Ew & Eh).
  destruct (step_Resize_fields w ow oh dpr)
    as (_ & _ & E3 & E4 & _ & _ & _ & _ & _ & Ec).
  fold w' in Ew, Eh, E3, E4, Ec. rewrite Hl in Ew, Eh, Ec.
  cbn [Nat.eqb repeat] in Ew, Eh, Ec. rewrite app_nil_r in Ec.
  repeat split; assumption.
Qed.

Lemma resize_after_unmount_witness :
  let w := run (effect halves examplePage) [Frame; Unmount] in
  let w' := step w (Resize 400 300 None) in
  canvasWidth w' = canvasWidth w.
Proof.
  apply (resize_after_unmount halves 800 600 (Some 2) [Frame; Unmount]
           400 300 None).
  right. left. reflexivity.
Defined.

(** ** What a resize changes *)

Lemma animate_canvas (w : World) :
  context2d w = true ->
  canvasWidth (animate w) = canvasWidth w /\
  canvasHeight (animate w) = canvasHeight w /\
  devicePixelRatio (animate w) = devicePixelRatio w.
Proof.
  intros Hctx. rewrite (animate_spec_frame w Hctx).
  destruct w. repeat split.
Qed.

Lemma set_cleanup_canvas (w : World) (b : bool) :
  canvasWidth (set_cleanup w b) = canvasWidth w /\
  canvasHeight (set_cleanup w b) = canvasHeight w.
Proof. destruct w. split; reflexivity. Qed.

Lemma effect_blankPage_canvas (rnd : nat -> R) (ow oh : R)
    (dpr : option R) :
  canvasWidth (effect rnd (blankPage true true ow oh dpr))
    = canvasAttribute 300 (ow * pixelRatio (blankPage true true ow oh dpr)) /\
  canvasHeight (effect rnd (blankPage true true ow oh dpr))
    = canvasAttribute 150 (oh * pixelRatio (blankPage true true ow oh dpr)).
Proof.
  rewrite effect_blankPage_eq.
  assert (Hctx : context2d (beforeFirstFrame rnd ow oh dpr) = true)
    by reflexivity.
  assert (Hw : canvasWidth (beforeFirstFrame rnd ow oh dpr)
               = canvasAttribute 300
                   (ow * pixelRatio (blankPage true true ow oh dpr)))
    by reflexivity.
  assert (Hh : canvasHeight (beforeFirstFrame rnd ow oh dpr)
               = canvasAttribute 150
                   (oh * pixelRatio (blankPage true true ow oh dpr)))
    by reflexivity.
  destruct (animate_canvas _ Hctx) as (A1 & A2 & _).
  destruct (set_cleanup_canvas (animate (beforeFirstFrame rnd ow oh dpr)) true)
    as (C1 & C2).
  rewrite C1, C2, A1, A2, Hw, Hh. split; reflexivity.
Qed.

Lemma canvasAttribute_integer (default z : Z) (v : R) :
  v = IZR z -> (0 <= z < 2147483648)%Z -> canvasAttribute default v = IZR z.
Proof.
  intros -> [Hlo Hhi].
  destruct (canvasAttribute_in_range default (IZR z)) as (E & _).
  { split; [apply IZR_le; exact Hlo | apply IZR_lt; exact Hhi]. }
  rewrite E. f_equal. symmetry. apply Int_part_spec. lra.
Qed.

(** C7, as stated, fails: on the mounted 800 x 600 page with pixel ratio 2,
    a resize to 400 x 300 changes more than the two sizes the wraparound
    reads: [setCanvasSize] rewrites the canvas width from 1600 to 800 (and
    the height from 1200 to 600) and scales the context once more. *)
Lemma resize_changes_canvas_and_context :
  let w := effect halves examplePage in
  let w' := step w (Resize 400 300 (Some 2)) in
  canvasWidth w = 1600 /\ canvasWidth w' = 800 /\
  canvasHeight w = 1200 /\ canvasHeight w' = 600 /\
  calls w' = calls w ++ [Scale 2 2] /\
  orbs w' = orbs w /\
  ~ onlyWrapSizesChanged w w'.
Proof.
  cbv zeta. unfold examplePage.
  destruct (effect_blankPage_canvas halves 800 600 (Some 2)) as (Cw & Ch).
  destruct (effect_blankPage halves 800 600 (Some 2)) as (_ & _ & Hl & _).
  destruct (step_Resize_canvas
              (effect halves (blankPage true true 800 600 (Some 2)))
              400 300 (Some 2)) as (Ew & Eh).
  destruct (step_Resize_fields
              (effect halves (blankPage true true 800 600 (Some 2)))
              400 300 (Some 2))
    as (_ & _ & _ & _ & Ed & _ & _ & Eo & _ & Ec).
  assert (Hr0 : pixelRatio (blankPage true true 800 600 (Some 2)) = 2).
  { apply (proj2 (pixelRatio_cases _) 2); [reflexivity | lra]. }
  assert (Hr : pixelRatio
                 (step (effect halves (blankPage true true 800 600 (Some 2)))
                       (Resize 400 300 (Some 2))) = 2).
  { apply (proj2 (pixelRatio_cases _) 2); [exact Ed | lra]. }
  rewrite Hl in Ew, Eh, Ec.
  change (countSetCanvasSize [SetCanvasSize]) with 1%nat in Ew, Eh, Ec.
  cbn [Nat.eqb repeat] in Ew, Eh, Ec.
  rewrite Hr in Ew, Eh, Ec. rewrite Hr0 in Cw, Ch.
  rewrite (canvasAttribute_integer 300 1600) in Cw by (lra || lia).
  rewrite (canvasAttribute_integer 150 1200) in Ch by (lra || lia).
  rewrite (canvasAttribute_integer 300 800) in Ew by (lra || lia).
  rewrite (canvasAttribute_integer 150 600) in Eh by (lra || lia).
  split; [exact Cw|]. split; [exact Ew|].
  split; [exact Ch|]. split; [exact Eh|].
  split; [exact Ec|]. split; [exact Eo|].
  intros (_ & _ & _ & Hcw & _). rewrite Cw, Ew in Hcw. lra.
Qed.

(** C7, amended: a resize modifies no orb: no field of any orb (position,
    velocity, radius, phase, colour) changes, and the listeners, the
    pending frame and the cleanup are kept.  What changes is the layout
    size, which the host sets and the wraparound of the later ticks reads,
    and, once for each registration of [setCanvasSize], the canvas width
    and height attributes (assigned the new layout size times the pixel
    ratio) and the scale of the context (one more scale call by that
    ratio).  In the running animation the listener is registered once
    until the cleanup runs and not at all afterwards, and the frame after
    a resize wraps against the new size. *)
Theorem resize_keeps_orbs :
  (forall (w : World) (ow oh : R) (dpr : option R),
      let w' := step w (Resize ow oh dpr) in
      orbs w' = orbs w /\
      offsetWidth w' = ow /\ offsetHeight w' = oh /\
      devicePixelRatio w' = dpr /\
      canvasRef w' = canvasRef w /\ context2d w' = context2d w /\
      resizeListeners w' = resizeListeners w /\
      frameRequests w' = frameRequests w /\
      cleanup w' = cleanup w /\
      canvasWidth w'
        = (if (countSetCanvasSize (resizeListeners w) =? 0)%nat
           then canvasWidth w
           else canvasAttribute 300 (ow * pixelRatio w')) /\
      canvasHeight w'
        = (if (countSetCanvasSize (resizeListeners w) =? 0)%nat
           then canvasHeight w
           else canvasAttribute 150 (oh * pixelRatio w')) /\
      calls w'
        = calls w ++ repeat (Scale (pixelRatio w') (pixelRatio w'))
                            (countSetCanvasSize (resizeListeners w))) /\
  (forall (rnd : nat -> R) (ow0 oh0 : R) (dpr0 : option R)
          (es : list Event) (ow oh : R) (dpr : option R),
      let w := run (effect rnd (blankPage true true ow0 oh0 dpr0)) es in
      orbs (step (step w (Resize ow oh dpr)) Frame)
        = map (updateOrb ow oh) (orbs w) /\
      (~ In Unmount es ->
       countSetCanvasSize (resizeListeners w) = 1%nat) /\
      (In Unmount es ->
       countSetCanvasSize (resizeListeners w) = 0%nat)).
Proof.
  split.
  - intros w ow oh dpr w'.
    destruct (step_Resize_fields w ow oh dpr)
      as (E1 & E2 & E3 & E4 & E5 & E6 & E7 & E8 & E9 & E10).
    destruct (step_Resize_canvas w ow oh dpr) as (Ew & Eh).
    repeat split; assumption.
  - intros rnd ow0 oh0 dpr0 es ow oh dpr w.
    assert (HM : Mounted w).
    { apply run_Mounted. apply effect_blankPage. }
    destruct (mounted_listener rnd ow0 oh0 dpr0 es) as (L1 & L2).
    fold w in L1, L2.
    split; [|split].
    + pose proof (step_Mounted w (Resize ow oh dpr) HM) as (Hctx & Hq & _).
      destruct (step_Resize_fields w ow oh dpr)
        as (_ & _ & E3 & E4 & _ & _ & _ & E8 & _).
      rewrite (step_Frame_pending _ Hq).
      destruct (animate_fields
                  (set_frameRequests (step w (Resize ow oh dpr)) []))
        as (_ & _ & _ & _ & _ & _ & A7 & _);
        [destruct (step w (Resize ow oh dpr)); exact Hctx|].
      rewrite A7.
      destruct (set_frameRequests_fields (step w (Resize ow oh dpr)) [])
        as (_ & F2 & F3 & F4).
      rewrite F2, F3, F4, E3, E4, E8. reflexivity.
    + intros Hn. rewrite (L1 Hn). reflexivity.
    + intros Hin. apply count_absent, L2, Hin.
Qed.

Lemma resize_keeps_orbs_witness :
  countSetCanvasSize
    (resizeListeners (run (effect halves examplePage) [Frame; Unmount]))
  = 0%nat.
Proof.
  apply (proj2 resize_keeps_orbs halves 800 600 (Some 2) [Frame; Unmount]
           400 300 None).
  right. left. reflexivity.
Defined.

(** ** Mounting and unmounting on a page with other listeners *)

Section RoundTrip.

Lemma filter_absent (ls : list Listener) :
  ~ In SetCanvasSize ls ->
  filter (fun l' => negb (listener_eqb SetCanvasSize l')) ls = ls.
Proof.
  induction ls as [|l ls IH]; intros H; [reflexivity|].
  cbn [filter]. destruct l as [|id].
  - exfalso. apply H. left. reflexivity.
  - cbn [listener_eqb negb]. f_equal. apply IH.
    intros Hin. apply H. right. exact Hin.
Qed.

Lemma existsb_absent (ls : list Listener) :
  ~ In SetCanvasSize ls -> existsb (listener_eqb SetCanvasSize) ls = false.
Proof.
  induction ls as [|l ls IH]; intros H; [reflexivity|].
  cbn [existsb]. destruct l as [|id].
  - exfalso. apply H. left. reflexivity.
  - cbn [listener_eqb orb]. apply IH.
    intros Hin. apply H. right. exact Hin.
Qed.

Lemma setCanvasSize_keeps (w : World) :
  context2d (setCanvasSize w) = context2d w /\
  resizeListeners (setCanvasSize w) = resizeListeners w.
Proof. destruct w. split; reflexivity. Qed.

Lemma addEventListener_new (w : World) :
  ~ In SetCanvasSize (resizeListeners w) ->
  context2d (addEventListener SetCanvasSize w) = context2d w /\
  resizeListeners (addEventListener SetCanvasSize w)
    = resizeListeners w ++ [SetCanvasSize].
Proof.
  intros H. unfold addEventListener. rewrite (existsb_absent _ H).
  destruct w. split; reflexivity.
Qed.

Lemma set_orbs_keeps (w : World) (os : list Orb) :
  context2d (set_orbs w os) = context2d w /\
  resizeListeners (set_orbs w os) = resizeListeners w.
Proof. destruct w. split; reflexivity. Qed.


Lemma set_cleanup_keeps (w : World) (b : bool) :
  resizeListeners (set_cleanup w b) = resizeListeners w /\
  cleanup (set_cleanup w b) = b.
Proof. destruct w. split; reflexivity. Qed.

Lemma effect_present_listeners (rnd : nat -> R) (w : World) :
  canvasRef w = true -> context2d w = true ->
  ~ In SetCanvasSize (resizeListeners w) ->
  resizeListeners (effect rnd w) = resizeListeners w ++ [SetCanvasSize] /\
  cleanup (effect rnd w) = true.
Proof.
  intros Hc Hx Hn. unfold effect. rewrite Hc, Hx. cbn [negb]. cbv zeta.
  destruct (setCanvasSize_keeps w) as (S1 & S2).
  assert (Hn1 : ~ In SetCanvasSize (resizeListeners (setCanvasSize w)))
    by (rewrite S2; exact Hn).
  destruct (addEventListener_new (setCanvasSize w) Hn1) as (A1 & A2).
  revert A1 A2.
  generalize (addEventListener SetCanvasSize (setCanvasSize w)).
  intros w2 A1 A2.
  generalize (fst (createOrbs (offsetWidth w2) (offsetHeight w2) palette
                              rnd 0%nat)).
  intros os.
  destruct (set_orbs_keeps w2 os) as (O1 & O2).
  assert (Hctx : context2d (set_orbs w2 os) = true)
    by (rewrite O1, A1, S1; exact Hx).
  destruct (animate_fields (set_orbs w2 os) Hctx)
    as (_ & _ & _ & F4 & _).
  destruct (set_cleanup_keeps (animate (set_orbs w2 os)) true) as (C1 & C2).
  rewrite C1, C2, F4, O2, A2, S2. split; reflexivity.
Qed.

Lemma palette_baseRadius_160 (os : list Orb) :
  map baseRadius os = map snd palette ->
  Forall (fun o => 160 <= baseRadius o) os.
Proof.
  intros H. apply Forall_map. rewrite H.
  unfold palette. cbn [map snd]. repeat constructor; lra.
Qed.

End RoundTrip.

(** X11: on a page whose window may carry other resize listeners, running
    the effect and then its cleanup leaves the window's resize listeners
    exactly as they were before, the others kept in their order; when the
    canvas and its context exist the effect registers [setCanvasSize]
    after them, once. *)
Theorem effect_cleanup_restores_listeners (rnd : nat -> R) (w : World) :
  ~ In SetCanvasSize (resizeListeners w) ->
  resizeListeners (step (effect rnd w) Unmount) = resizeListeners w /\
  (canvasRef w = true -> context2d w = true ->
   resizeListeners (effect rnd w) = resizeListeners w ++ [SetCanvasSize]).
Proof.
  intros Hn. split.
  - destruct (canvasRef w) eqn:Hc; [destruct (context2d w) eqn:Hx|].
    + destruct (effect_present_listeners rnd w Hc Hx Hn) as (El & Ec).
      cbn [step]. rewrite Ec. unfold dispose, removeEventListener.
      generalize dependent (effect rnd w). intros m El Ec.
      destruct m. world_fields. subst.
      rewrite filter_app, (filter_absent _ Hn). cbn. apply app_nil_r.
    + rewrite effect_absent by (right; exact Hx).
      cbn [step]. destruct (cleanup w); [|reflexivity].
      unfold dispose, removeEventListener. destruct w. world_fields.
      apply filter_absent. exact Hn.
    + rewrite effect_absent by (left; exact Hc).
      cbn [step]. destruct (cleanup w); [|reflexivity].
      unfold dispose, removeEventListener. destruct w. world_fields.
      apply filter_absent. exact Hn.
  - intros Hc Hx. apply (effect_present_listeners rnd w Hc Hx Hn).
Qed.

Lemma effect_cleanup_restores_listeners_witness :
  resizeListeners
    (step (effect zeros
             (mkWorld true true 800 600 None 300 150
                      [OtherListener 1; OtherListener 2] [] [] false []))
          Unmount)
  = [OtherListener 1; OtherListener 2].
Proof.
  apply (effect_cleanup_restores_listeners zeros
           (mkWorld true true 800 600 None 300 150
                    [OtherListener 1; OtherListener 2] [] [] false [])).
  cbn [resizeListeners]. intros [H | [H | []]]; discriminate.
Defined.



(** X13: for draws from [0, 1) on a surface with width >= 0 and
    height >= 0, the frame painted while mounting never wraps an orb: each
    orb is painted at its created position plus its velocity. *)
Theorem first_frame_does_not_wrap (rnd : nat -> R) (ow oh : R)
    (dpr : option R) :
  (forall i, 0 <= rnd i < 1) -> 0 <= ow -> 0 <= oh ->
  Forall2 (fun c o => x o = x c + vx c /\ y o = y c + vy c)
          (fst (createOrbs ow oh palette rnd 0%nat))
          (orbs (effect rnd (blankPage true true ow oh dpr))).
Proof.
  intros Hr Hw Hh.
  destruct (effect_blankPage rnd ow oh dpr)
    as (_ & _ & _ & _ & _ & Eo & _).
  rewrite Eo.
  destruct (createOrbs_shape rnd ow oh palette 0) as (_ & Hb & _).
  pose proof (palette_baseRadius_160 _ Hb) as Hpal.
  pose proof (createOrbs_ranges rnd ow oh Hr Hw Hh palette 0) as Hcr.
  rewrite Forall_forall in Hpal, Hcr.
  apply Forall2_map_self. intros c Hin.
  specialize (Hpal c Hin). specialize (Hcr c Hin).
  destruct Hcr as (Hx & _ & Hy & _ & Hvx & Hvy & _).
  pose proof (moveOrb_radiusInRange c) as Hrad.
  rewrite updateOrb_x, updateOrb_y.
  split; apply wrapAxis_inside; lra.
Qed.

Lemma first_frame_does_not_wrap_witness :
  Forall2 (fun c o => x o = x c + vx c /\ y o = y c + vy c)
          (fst (createOrbs 800 600 palette halves 0%nat))
          (orbs (effect halves examplePage)).
Proof.
  apply (first_frame_does_not_wrap halves 800 600 (Some 2)).
  - intros i. unfold halves. lra.
  - lra.
  - lra.
Defined.

(** ** A page without a drawing surface, and the colours painted *)

Lemma bare_step (w : World) (e : Event) :
  orbs w = [] /\ frameRequests w = [] /\ resizeListeners w = [] /\
  cleanup w = false /\ calls w = [] /\
  canvasWidth w = 300 /\ canvasHeight w = 150 ->
  orbs (step w e) = [] /\ frameRequests (step w e) = [] /\
  resizeListeners (step w e) = [] /\
  cleanup (step w e) = false /\ calls (step w e) = [] /\
  canvasWidth (step w e) = 300 /\ canvasHeight (step w e) = 150.
Proof.
  intros (Ho & Hq & Hl & Hc & Hk & Hw & Hh). destruct e as [ow oh dpr| |].
  - destruct (step_Resize_fields w ow oh dpr)
      as (_ & _ & _ & _ & _ & E6 & E7 & E8 & E9 & E10).
    destruct (step_Resize_canvas w ow oh dpr) as (Ew & Eh).
    rewrite Hl in E10, Ew, Eh. unfold countSetCanvasSize in E10, Ew, Eh.
    cbn [filter List.length Nat.eqb repeat] in E10, Ew, Eh.
    rewrite app_nil_r in E10.
    rewrite E6, E7, E8, E9, E10, Ew, Eh. repeat split; assumption.
  - rewrite (step_Frame_empty w Hq). repeat split; assumption.
  - cbn [step]. rewrite Hc. repeat split; assumption.
Qed.

(** X14: on a page whose canvas or 2D context is missing, nothing the host
    does after the effect has returned ever draws or registers anything:
    after any resizes, frames and unmounting there is still no call on a
    context, no listener, no pending frame, no orb and no cleanup, and the
    canvas attributes are still the defaults. *)
Theorem nothing_happens_without_surface (rnd : nat -> R) (c d : bool)
    (ow oh : R) (dpr : option R) (es : list Event) :
  c = false \/ d = false ->
  let w := run (effect rnd (blankPage c d ow oh dpr)) es in
  calls w = [] /\ resizeListeners w = [] /\ frameRequests w = [] /\
  orbs w = [] /\ cleanup w = false /\
  canvasWidth w = 300 /\ canvasHeight w = 150.
Proof.
  intros H. cbv zeta.
  rewrite effect_absent by (destruct H as [-> | ->]; [left | right];
                            reflexivity).
  assert (G : forall es w,
             (orbs w = [] /\ frameRequests w = [] /\ resizeListeners w = [] /\
              cleanup w = false /\ calls w = [] /\
              canvasWidth w = 300 /\ canvasHeight w = 150) ->
             (orbs (run w es) = [] /\ frameRequests (run w es) = [] /\
              resizeListeners (run w es) = [] /\
              cleanup (run w es) = false /\ calls (run w es) = [] /\
              canvasWidth (run w es) = 300 /\ canvasHeight (run w es) = 150)).
  { clear. induction es as [|e es IH]; intros w Hw; [exact Hw|].
    change (run w (e :: es)) with (run (step w e) es).
    apply IH, bare_step, Hw. }
  destruct (G es (blankPage c d ow oh dpr))
    as (G1 & G2 & G3 & G4 & G5 & G6 & G7); [repeat split|].
  repeat split; assumption.
Qed.

Lemma nothing_happens_without_surface_witness :
  calls (run (effect zeros (blankPage true false 800 600 (Some 2)))
             [Resize 400 300 None; Frame; Unmount; Frame])
  = [].
Proof.
  apply (nothing_happens_without_surface zeros true false 800 600 (Some 2)
           [Resize 400 300 None; Frame; Unmount; Frame]).
  right. reflexivity.
Defined.

(** X15: in every state of the mounted animation the colours of the three
    gradient stops are the same for each orb: the palette colour it was
    created with, that colour with opacity 0.05, and transparent. *)
Theorem painted_colours_are_fixed (rnd : nat -> R) (ow oh : R)
    (dpr : option R) (es : list Event) :
  let w := run (effect rnd (blankPage true true ow oh dpr)) es in
  map (fun o => map snd (stops (gradientOf o))) (orbs w)
  = [ [ "rgba(139, 92, 246, 0.18)"; "rgba(139, 92, 246, 0.05)";
        "transparent" ];
      [ "rgba(192, 132, 252, 0.14)"; "rgba(192, 132, 252, 0.05)";
        "transparent" ];
      [ "rgba(236, 72, 153, 0.12)"; "rgba(236, 72, 153, 0.05)";
        "transparent" ];
      [ "rgba(212, 175, 55, 0.08)"; "rgba(212, 175, 55, 0.05)";
        "transparent" ];
      [ "rgba(99, 102, 241, 0.12)"; "rgba(99, 102, 241, 0.05)";
        "transparent" ];
      [ "rgba(244, 114, 182, 0.10)"; "rgba(244, 114, 182, 0.05)";
        "transparent" ] ]%string.
Proof.
  cbv zeta.
  destruct (effect_blankPage rnd ow oh dpr) as (HM & _).
  destruct (run_Mounted es _ HM) as (_ & _ & _ & Hc & _).
  transitivity
    (map (fun c => [c; replaceAlpha c; "transparent"%string])
         (map color (orbs (run (effect rnd (blankPage true true ow oh dpr))
                               es)))).
  - rewrite map_map. apply map_ext. intros o. reflexivity.
  - rewrite Hc. unfold palette. cbn [map fst].
    repeat (f_equal; [f_equal; f_equal; vm_compute; reflexivity|]).
    reflexivity.
Qed.
